(** * Rapido'Devis quote parser

    A shallow embedding of [scripts/pdf_parser.py] (class
    [RapidoDevisParser]) and of the batch loops of
    [scripts/test_parser_batch.py] and [scripts/etl_pipeline.py], with the
    properties of the extraction pipeline stated and proved over it.

    Layout of the development:
    - [Text]: Python [str] values as lists of code points and the string
      methods the parser calls ([strip], [split], [replace], [in], ...);
    - [Re]: a backtracking matcher with the priorities of Python's [re]
      (ordered alternation, greedy and lazy repetition, capture groups,
      [match] and [search]);
    - [Num]: [float(...)] and [datetime.strptime(..., '%d/%m/%Y')];
    - [RapidoDevisParser]: the extractors and the table walk;
    - [Batch]: the per-document try/except loops;
    - the theorems. *)

From Stdlib Require Import List NArith ZArith QArith String Ascii Bool Lia.
Import ListNotations.

Set Implicit Arguments.
Close Scope Q_scope.

(* ================================================================== *)
(** ** Python strings *)

Module Text.
Local Open Scope N_scope.

(** A Python [str] is a sequence of Unicode code points. *)
Definition codepoint := N.
Definition str := list codepoint.

Definition byte_of (a : ascii) : N := N_of_ascii a.

(** [py "..."] is the [str] denoted by a literal of the source: the
    literal is stored as UTF-8 bytes, which [py] decodes. *)
Fixpoint py (s : string) : str :=
  match s with
  | EmptyString => []
  | String a r =>
    let b := byte_of a in
    if (b <? 128)%N then b :: py r
    else if (b <? 224)%N then
      match r with
      | String a1 r1 => ((b - 192) * 64 + (byte_of a1 - 128))%N :: py r1
      | EmptyString => []
      end
    else if (b <? 240)%N then
      match r with
      | String a1 (String a2 r2) =>
        ((b - 224) * 4096 + (byte_of a1 - 128) * 64 + (byte_of a2 - 128))%N
          :: py r2
      | _ => []
      end
    else
      match r with
      | String a1 (String a2 (String a3 r3)) =>
        ((b - 240) * 262144 + (byte_of a1 - 128) * 4096
         + (byte_of a2 - 128) * 64 + (byte_of a3 - 128))%N :: py r3
      | _ => []
      end
  end.

Definition in_range (lo hi c : codepoint) : bool :=
  ((lo <=? c) && (c <=? hi))%N.

Definition NL : codepoint := 10%N.
Definition SP : codepoint := 32%N.

(** [str.isspace] on one code point, which is also the class [\s] of
    [re] on [str] patterns: the 29 white-space code points. *)
Definition isspace (c : codepoint) : bool :=
  in_range 9 13 c || in_range 28 32 c
  || (c =? 133)%N || (c =? 160)%N || (c =? 5760)%N
  || in_range 8192 8202 c
  || (c =? 8232)%N || (c =? 8233)%N || (c =? 8239)%N || (c =? 8287)%N
  || (c =? 12288)%N.

(** The class [\d].  The model covers the Latin blocks (U+0000 to
    U+024F), where the decimal digits are [0] to [9]; the digit tables of
    the other scripts in the interpreter's Unicode database are left out. *)
Definition isdigit (c : codepoint) : bool := in_range 48 57 c.

(** The class [\w]: alphanumeric code points and the underscore, again on
    the Latin blocks. *)
Definition isword (c : codepoint) : bool :=
  in_range 48 57 c || in_range 65 90 c || (c =? 95)%N || in_range 97 122 c
  || (c =? 170)%N || in_range 178 179 c || (c =? 181)%N
  || in_range 185 186 c || in_range 188 190 c
  || in_range 192 214 c || in_range 216 246 c || in_range 248 591 c.

Definition str_eqb (a b : str) : bool :=
  if list_eq_dec N.eq_dec a b then true else false.

(** [s.lstrip()], [s.rstrip()] and [s.strip()] with no argument. *)
Fixpoint lstrip (s : str) : str :=
  match s with
  | c :: r => if isspace c then lstrip r else s
  | [] => []
  end.

Definition rstrip (s : str) : str := rev (lstrip (rev s)).
Definition strip (s : str) : str := rstrip (lstrip s).

(** [s.replace(old, new)] for a one-character [old]. *)
Definition replace (old : codepoint) (new : str) (s : str) : str :=
  flat_map (fun c => if (c =? old)%N then new else [c]) s.

(** [s.split(sep)] for a one-character separator: never an empty list. *)
Fixpoint split_on (sep : codepoint) (s : str) : list str :=
  match s with
  | [] => [[]]
  | c :: r =>
    if (c =? sep)%N then [] :: split_on sep r
    else match split_on sep r with
         | w :: ws => (c :: w) :: ws
         | [] => [[c]]
         end
  end.

(** [s.split(sep, 1)]: at most one cut, at the first separator. *)
Fixpoint split_first (sep : codepoint) (s : str) : list str :=
  match s with
  | [] => [[]]
  | c :: r =>
    if (c =? sep)%N then [[]; r]
    else match split_first sep r with
         | w :: ws => (c :: w) :: ws
         | [] => [[c]]
         end
  end.

(** The longest prefix without white space, and what follows it. *)
Fixpoint span_word (s : str) : str * str :=
  match s with
  | c :: r =>
    if isspace c then ([], s)
    else let (w, t) := span_word r in (c :: w, t)
  | [] => ([], [])
  end.

(** [s.split()]: cut at runs of white space, no empty words.  The fuel
    bounds the number of words by the length of the text. *)
Fixpoint split_ws_fuel (fuel : nat) (s : str) : list str :=
  match fuel with
  | O => []
  | S f =>
    match lstrip s with
    | [] => []
    | t => let (w, r) := span_word t in w :: split_ws_fuel f r
    end
  end.

Definition split_ws (s : str) : list str :=
  split_ws_fuel (S (List.length s)) s.

(** [s.split(maxsplit=1)]: the first word, then the remainder from its
    first non-space character to the end of the text. *)
Definition split_ws1 (s : str) : list str :=
  match lstrip s with
  | [] => []
  | t => let (w, r) := span_word t in
         match lstrip r with
         | [] => [w]
         | r' => [w; r']
         end
  end.

(** [sep.join(parts)]. *)
Fixpoint join (sep : str) (parts : list str) : str :=
  match parts with
  | [] => []
  | [p] => p
  | p :: ps => p ++ sep ++ join sep ps
  end.

Fixpoint startswith (p s : str) : bool :=
  match p, s with
  | [], _ => true
  | a :: p', b :: s' => (a =? b)%N && startswith p' s'
  | _ :: _, [] => false
  end.

(** [sub in s]. *)
Fixpoint contains (sub s : str) : bool :=
  startswith sub s ||
  match s with
  | [] => false
  | _ :: r => contains sub r
  end.

End Text.

Import Text.

(* ================================================================== *)
(** ** Regular expressions *)

Module Re.

(** The fragment of the pattern language the parser uses.  [Chr p]
    matches one code point of class [p]; [Star true r] is the greedy
    [r*], [Star false r] the lazy [r*?]; [Group i r] is the capturing
    group number [i]; [Bol] and [Eol] are the anchors of a pattern
    compiled without [re.MULTILINE] (none of the anchored patterns of the
    parser sets it). *)
Inductive regex : Type :=
| Eps
| Bol
| Eol
| Chr (p : codepoint -> bool)
| Seq (r1 r2 : regex)
| Alt (r1 r2 : regex)
| Star (greedy : bool) (r : regex)
| Group (i : nat) (r : regex).

Definition captures := list (nat * str).

Section Matcher.
Variable R : Type.

Definition cont := nat -> str -> captures -> option R.

(** The loop of a repetition.  [step] matches the body once; an
    iteration that consumes nothing is not repeated; the fuel is the
    length of the text left, which bounds the number of iterations that
    consume something.  The greedy loop tries one more iteration before
    it tries to go on; the lazy loop does the opposite. *)
Fixpoint star_loop (step : nat -> str -> captures -> cont -> option R)
         (greedy : bool) (k : cont) (fuel : nat) (pos : nat) (s : str)
         (c : captures) {struct fuel} : option R :=
  match fuel with
  | O => k pos s c
  | S fuel' =>
    let again :=
        fun pos' s' c' =>
          if Nat.ltb pos pos'
          then star_loop step greedy k fuel' pos' s' c'
          else None in
    if greedy then
      match step pos s c again with
      | Some m => Some m
      | None => k pos s c
      end
    else
      match k pos s c with
      | Some m => Some m
      | None => step pos s c again
      end
  end.

(** [run r pos s c k]: match [r] at offset [pos], where [s] is the text
    from [pos] on, then hand the rest to the continuation [k].  The
    alternatives are explored in the order of Python's engine, and the
    first complete match is the answer. *)
Fixpoint run (r : regex) (pos : nat) (s : str) (c : captures) (k : cont)
         {struct r} : option R :=
  match r with
  | Eps => k pos s c
  | Bol => if Nat.eqb pos 0 then k pos s c else None
  | Eol =>
    match s with
    | [] => k pos s c
    | [x] => if (x =? NL)%N then k pos s c else None
    | _ => None
    end
  | Chr p =>
    match s with
    | x :: s' => if p x then k (S pos) s' c else None
    | [] => None
    end
  | Seq r1 r2 =>
    run r1 pos s c (fun pos' s' c' => run r2 pos' s' c' k)
  | Alt r1 r2 =>
    match run r1 pos s c k with
    | Some m => Some m
    | None => run r2 pos s c k
    end
  | Group i r1 =>
    run r1 pos s c
        (fun pos' s' c' => k pos' s' ((i, firstn (pos' - pos) s) :: c'))
  | Star greedy r1 =>
    star_loop (run r1) greedy k (List.length s) pos s c
  end.
End Matcher.

(** A match object: where the match starts and ends, the text after it,
    and the groups that took part. *)
Record match_obj : Type := MatchObj {
  m_start : nat;
  m_end : nat;
  m_rest : str;
  m_caps : captures
}.

Fixpoint lookup (i : nat) (c : captures) : option str :=
  match c with
  | [] => None
  | (j, v) :: c' => if Nat.eqb i j then Some v else lookup i c'
  end.

(** [m.group(i)] for a group that took part in the match; the parser
    only reads groups that every match of its pattern sets. *)
Definition group (m : match_obj) (i : nat) : str :=
  match lookup i (m_caps m) with
  | Some v => v
  | None => []
  end.

Definition match_at (r : regex) (pos : nat) (s : str) : option match_obj :=
  run r pos s [] (fun pos' s' c' => Some (MatchObj pos pos' s' c')).

(** [re.match(r, s)]: a match starting at offset 0. *)
Definition re_match (r : regex) (s : str) : option match_obj :=
  match_at r 0 s.

(** [re.search(r, s)]: the match at the leftmost offset that has one. *)
Fixpoint search_from (r : regex) (pos : nat) (s : str) : option match_obj :=
  match match_at r pos s with
  | Some m => Some m
  | None =>
    match s with
    | [] => None
    | _ :: s' => search_from r (S pos) s'
    end
  end.

Definition re_search (r : regex) (s : str) : option match_obj :=
  search_from r 0 s.

(** Pattern syntax. *)
Definition chr (c : codepoint) : regex := Chr (fun x => (x =? c)%N).
Definition dot : regex := Chr (fun x => negb (x =? NL)%N).
Definition bs_d : regex := Chr isdigit.
Definition bs_s : regex := Chr isspace.
Definition bs_w : regex := Chr isword.
Definition plus (r : regex) : regex := Seq r (Star true r).
Definition plus_lazy (r : regex) : regex := Seq r (Star false r).
Definition star (r : regex) : regex := Star true r.
Definition opt (r : regex) : regex := Alt r Eps.

Fixpoint lit (t : str) : regex :=
  match t with
  | [] => Eps
  | c :: t' => Seq (chr c) (lit t')
  end.

Fixpoint rep (n : nat) (r : regex) : regex :=
  match n with
  | O => Eps
  | S n' => Seq r (rep n' r)
  end.

Fixpoint seqs (rs : list regex) : regex :=
  match rs with
  | [] => Eps
  | [r] => r
  | r :: rs' => Seq r (seqs rs')
  end.

Fixpoint alts (rs : list regex) : regex :=
  match rs with
  | [] => Eps
  | [r] => r
  | r :: rs' => Alt r (alts rs')
  end.

End Re.

(* ================================================================== *)
(** ** Exceptions *)

(** The exceptions that cross the parser: [ValueError] from [float] and
    [strptime], [IndexError] from [pdf.pages[0]], and whatever the PDF
    library or the operating system raises when a file cannot be opened
    or read.  All of them derive from [Exception]; each carries the text
    that [str(e)] returns. *)
Inductive exn : Type :=
| ValueError (msg : str)
| IndexError (msg : str)
| LibraryError (msg : str).

Definition str_exn (e : exn) : str :=
  match e with
  | ValueError m => m
  | IndexError m => m
  | LibraryError m => m
  end.

Inductive result (A : Type) : Type :=
| Ok (a : A)
| Raise (e : exn).

Arguments Ok {A} a.
Arguments Raise {A} e.

Definition bind {A B : Type} (x : result A) (f : A -> result B) : result B :=
  match x with
  | Ok a => f a
  | Raise e => Raise e
  end.

Notation "'let*' x ':=' e 'in' k" := (bind e (fun x => k))
  (at level 10, x pattern, e at level 100, k at level 200).

(* ================================================================== *)
(** ** Numbers and dates *)

Module Num.
Local Open Scope N_scope.

Definition digit_val (c : codepoint) : Z := Z.of_N (c - 48).

(** The number a run of decimal digits denotes, most significant first. *)
Definition Z_of_digits (ds : str) : Z :=
  fold_left (fun acc c => (10 * acc + digit_val c)%Z) ds 0%Z.

Definition nonempty (t : str) : bool :=
  match t with [] => false | _ => true end.

Definition DOT : codepoint := 46%N.
Definition COMMA : codepoint := 44%N.

(** White space as [float] reads it.  [float] turns every white-space
    code point from U+007F on into a plain space and then skips the ASCII
    white space (tab to carriage return, and the space) at both ends of
    the text.  The separators U+001C to U+001F, which [str.isspace] and
    [\s] accept, are not skipped. *)
Definition float_space (c : codepoint) : bool :=
  isspace c && negb (in_range 28 31 c).

Fixpoint skip_spaces (s : str) : str :=
  match s with
  | c :: r => if float_space c then skip_spaces r else s
  | [] => []
  end.

Definition float_strip (s : str) : str :=
  rev (skip_spaces (rev (skip_spaces s))).

(** The value of [float(t)].  Python returns the double nearest to the
    decimal number that [t] denotes; the model keeps that decimal number
    itself, as a fraction in lowest terms, so that two literals are given
    equal values exactly when they denote the same number.  The grammar is
    the one reachable from the parser, whose patterns capture digits, the
    point, the comma and white space only: white space at both ends, as
    [float] skips it, around an integer part and an optional fraction,
    with a digit on one side of the point at least.  [None] is where
    [float] raises [ValueError]. *)
Definition float_value (t : str) : option Q :=
  match split_on DOT (float_strip t) with
  | [i] =>
    if nonempty i && forallb isdigit i
    then Some (Qred (Z_of_digits i # 1)%Q)
    else None
  | [i; f] =>
    if forallb isdigit i && forallb isdigit f && (nonempty i || nonempty f)
    then Some (Qred (Z_of_digits (i ++ f)
                     # Z.to_pos (10 ^ Z.of_nat (List.length f)))%Q)
    else None
  | _ => None
  end.

Definition hex_digit (n : N) : codepoint :=
  (if n <? 10 then 48 + n else 87 + n)%N.

Fixpoint hex_fixed (width : nat) (n : N) : str :=
  match width with
  | O => []
  | S w' => hex_fixed w' (n / 16) ++ [hex_digit (n mod 16)]
  end.

Definition QUOTE : codepoint := 39%N.
Definition DQUOTE : codepoint := 34%N.
Definition BACKSLASH : codepoint := 92%N.

(** [repr(t)] of a [str], as it appears in the interpreter's messages.
    On the Latin blocks the code points that are not printable are the
    controls, U+007F to U+00A0, the soft hyphen and the white space other
    than the plain space. *)
Definition printable (c : codepoint) : bool :=
  negb (in_range 0 31 c || in_range 127 160 c || (c =? 173)%N
        || (isspace c && negb (c =? SP)%N)).

Definition repr_char (q c : codepoint) : str :=
  if (c =? BACKSLASH)%N then [BACKSLASH; BACKSLASH]
  else if (c =? q)%N then [BACKSLASH; q]
  else if (c =? 9)%N then BACKSLASH :: py "t"
  else if (c =? 10)%N then BACKSLASH :: py "n"
  else if (c =? 13)%N then BACKSLASH :: py "r"
  else if printable c then [c]
  else if (c <? 256)%N then BACKSLASH :: py "x" ++ hex_fixed 2%nat c
  else if (c <? 65536)%N then BACKSLASH :: py "u" ++ hex_fixed 4%nat c
  else BACKSLASH :: py "U" ++ hex_fixed 8%nat c.

Definition repr (t : str) : str :=
  let q := if existsb (N.eqb QUOTE) t && negb (existsb (N.eqb DQUOTE) t)
           then DQUOTE else QUOTE in
  q :: flat_map (repr_char q) t ++ [q].

(** [float(t)]. *)
Definition float (t : str) : result Q :=
  match float_value t with
  | Some v => Ok v
  | None =>
    Raise (ValueError (py "could not convert string to float: " ++ repr t))
  end.

(** A [datetime.date]. *)
Record date : Type := Date { year : Z; month : Z; day : Z }.

Definition is_leap (y : Z) : bool :=
  ((y mod 4 =? 0) && (negb (y mod 100 =? 0) || (y mod 400 =? 0)))%Z.

Definition days_in_month (y m : Z) : Z :=
  (if m =? 2 then (if is_leap y then 29 else 28)
   else if (m =? 4) || (m =? 6) || (m =? 9) || (m =? 11) then 30
   else 31)%Z.

Import Re.

(** The pattern that [strptime] compiles for the format [%d/%m/%Y]:
    [(?P<d>3[0-1]|[1-2]\d|0[1-9]|[1-9]| [1-9])/(?P<m>1[0-2]|0[1-9]|[1-9])/(?P<Y>\d\d\d\d)]. *)
Definition strptime_regex : regex :=
  seqs [ Group 1%nat (alts [ Seq (chr 51) (Chr (in_range 48 49));
                         Seq (Chr (in_range 49 50)) bs_d;
                         Seq (chr 48) (Chr (in_range 49 57));
                         Chr (in_range 49 57);
                         Seq (chr SP) (Chr (in_range 49 57)) ]);
         chr 47;
         Group 2%nat (alts [ Seq (chr 49) (Chr (in_range 48 50));
                         Seq (chr 48) (Chr (in_range 49 57));
                         Chr (in_range 49 57) ]);
         chr 47;
         Group 3%nat (rep 4%nat bs_d) ].

(** [datetime.strptime(t, '%d/%m/%Y').date()]: the text must match the
    pattern of the format in full, and the fields must then form a date of
    the proleptic Gregorian calendar from year 1 on. *)
Definition strptime_dmY (t : str) : result date :=
  match re_match strptime_regex t with
  | None =>
    Raise (ValueError (py "time data " ++ repr t
                       ++ py " does not match format '%d/%m/%Y'"))
  | Some m =>
    match m_rest m with
    | _ :: _ =>
      Raise (ValueError (py "unconverted data remains: " ++ m_rest m))
    | [] =>
      let dd := Z_of_digits (lstrip (group m 1%nat)) in
      let mm := Z_of_digits (group m 2%nat) in
      let yy := Z_of_digits (group m 3%nat) in
      if (yy <? 1)%Z then
        Raise (ValueError (py "year 0 is out of range"))
      else if (days_in_month yy mm <? dd)%Z then
        Raise (ValueError (py "day is out of range for month"))
      else Ok (Date yy mm dd)
    end
  end.

End Num.

(* ================================================================== *)
(** ** [hashlib.sha256] *)

Module Hashlib.
Local Open Scope Z_scope.

(** Words are 32-bit integers, kept in [Z] with the wrap-around written
    out. *)
Definition w32 (x : Z) : Z := x mod 2 ^ 32.
Definition add32 (x y : Z) : Z := w32 (x + y).
Definition not32 (x : Z) : Z := Z.lxor x 4294967295.
Definition rotr (n x : Z) : Z :=
  Z.lor (Z.shiftr x n) (w32 (Z.shiftl x (32 - n))).

Definition Ch (x y z : Z) : Z :=
  Z.lxor (Z.land x y) (Z.land (not32 x) z).
Definition Maj (x y z : Z) : Z :=
  Z.lxor (Z.lxor (Z.land x y) (Z.land x z)) (Z.land y z).
Definition Sigma0 (x : Z) : Z :=
  Z.lxor (Z.lxor (rotr 2 x) (rotr 13 x)) (rotr 22 x).
Definition Sigma1 (x : Z) : Z :=
  Z.lxor (Z.lxor (rotr 6 x) (rotr 11 x)) (rotr 25 x).
Definition sigma0 (x : Z) : Z :=
  Z.lxor (Z.lxor (rotr 7 x) (rotr 18 x)) (Z.shiftr x 3).
Definition sigma1 (x : Z) : Z :=
  Z.lxor (Z.lxor (rotr 17 x) (rotr 19 x)) (Z.shiftr x 10).

Definition K256 : list Z :=
  [ 1116352408; 1899447441; 3049323471; 3921009573;
    961987163; 1508970993; 2453635748; 2870763221;
    3624381080; 310598401; 607225278; 1426881987;
    1925078388; 2162078206; 2614888103; 3248222580;
    3835390401; 4022224774; 264347078; 604807628;
    770255983; 1249150122; 1555081692; 1996064986;
    2554220882; 2821834349; 2952996808; 3210313671;
    3336571891; 3584528711; 113926993; 338241895;
    666307205; 773529912; 1294757372; 1396182291;
    1695183700; 1986661051; 2177026350; 2456956037;
    2730485921; 2820302411; 3259730800; 3345764771;
    3516065817; 3600352804; 4094571909; 275423344;
    430227734; 506948616; 659060556; 883997877;
    958139571; 1322822218; 1537002063; 1747873779;
    1955562222; 2024104815; 2227730452; 2361852424;
    2428436474; 2756734187; 3204031479; 3329325298 ].

Definition H256 : list Z :=
  [ 1779033703; 3144134277; 1013904242; 2773480762;
    1359893119; 2600822924; 528734635; 1541459225 ].

Definition byte_val (b : Byte.byte) : Z := Z.of_N (Byte.to_N b).

(** Big-endian words of a block. *)
Fixpoint words_of (bs : list Byte.byte) : list Z :=
  match bs with
  | b0 :: b1 :: b2 :: b3 :: r =>
    (byte_val b0 * 16777216 + byte_val b1 * 65536
     + byte_val b2 * 256 + byte_val b3) :: words_of r
  | _ => []
  end.

(** The message schedule, latest word first. *)
Fixpoint schedule (n : nat) (rw : list Z) : list Z :=
  match n with
  | O => rw
  | S n' =>
    let wt := add32 (add32 (sigma1 (nth 1 rw 0)) (nth 6 rw 0))
                    (add32 (sigma0 (nth 14 rw 0)) (nth 15 rw 0)) in
    schedule n' (wt :: rw)
  end.

Definition round (v : list Z) (kw : Z * Z) : list Z :=
  match v with
  | [a; b; c; d; e; f; g; h] =>
    let t1 := add32 (add32 (add32 h (Sigma1 e)) (add32 (Ch e f g) (fst kw)))
                    (snd kw) in
    let t2 := add32 (Sigma0 a) (Maj a b c) in
    [add32 t1 t2; a; b; c; add32 d t1; e; f; g]
  | _ => v
  end.

(** The compression function on one 64-byte block. *)
Definition compress (h : list Z) (block : list Byte.byte) : list Z :=
  let ws := rev (schedule 48 (rev (words_of block))) in
  let v := fold_left round (combine K256 ws) h in
  map (fun p => add32 (fst p) (snd p)) (combine h v).

(** Compress the full blocks at the head of the pending bytes. *)
Fixpoint absorb (fuel : nat) (h : list Z) (bs : list Byte.byte)
  : list Z * list Byte.byte :=
  match fuel with
  | O => (h, bs)
  | S fuel' =>
    if (64 <=? List.length bs)%nat
    then absorb fuel' (compress h (firstn 64 bs)) (skipn 64 bs)
    else (h, bs)
  end.

(** A hash object: the chaining value, the bytes not yet compressed
    (fewer than 64) and the number of bytes fed so far. *)
Record hasher : Type := Hasher {
  chain : list Z;
  pending : list Byte.byte;
  fed : Z
}.

(** [hashlib.sha256()]. *)
Definition sha256 : hasher := Hasher H256 [] 0.

(** [h.update(data)]. *)
Definition update (st : hasher) (data : list Byte.byte) : hasher :=
  let bs := pending st ++ data in
  let (h', rest) := absorb (List.length bs) (chain st) bs in
  Hasher h' rest (fed st + Z.of_nat (List.length data)).

Definition byte_of_Z (z : Z) : Byte.byte :=
  match Byte.of_N (Z.to_N (z mod 256)) with
  | Some b => b
  | None => Byte.x00
  end.

Fixpoint be_bytes (width : nat) (z : Z) : list Byte.byte :=
  match width with
  | O => []
  | S w' => be_bytes w' (z / 256) ++ [byte_of_Z z]
  end.

(** The padding: 0x80, zeros up to 56 modulo 64, the bit length on 64
    bits. *)
Definition padding (st : hasher) : list Byte.byte :=
  let n := Z.of_nat (List.length (pending st)) in
  Byte.x80 :: repeat Byte.x00 (Z.to_nat ((55 - n) mod 64))
    ++ be_bytes 8 (8 * fed st).

Definition digest_words (st : hasher) : list Z :=
  let bs := pending st ++ padding st in
  fst (absorb (List.length bs) (chain st) bs).

(** [h.hexdigest()]: eight words of eight lowercase hexadecimal digits. *)
Definition hexdigest (st : hasher) : str :=
  flat_map (fun x => Num.hex_fixed 8 (Z.to_N x)) (digest_words st).

End Hashlib.

(* ================================================================== *)
(** ** [pdf_parser.py]: class [RapidoDevisParser] *)

Module RapidoDevisParser.
Import Re.

(** *** Character sets of the patterns *)

Definition ch (s : string) : codepoint := hd 0%N (py s).
Definition range (a b : string) (c : codepoint) : bool :=
  in_range (ch a) (ch b) c.
Definition set (s : string) (c : codepoint) : bool :=
  existsb (N.eqb c) (py s).
Definition cls (ps : list (codepoint -> bool)) : regex :=
  Chr (fun c => existsb (fun p => p c) ps).
Definition not_newline : regex := Chr (fun c => negb (c =? NL)%N).

(** [[A-ZÀ-Ÿ]] and [[a-zà-ÿ]]. *)
Definition upper : regex := cls [range "A" "Z"; range "À" "Ÿ"].
Definition lower : regex := cls [range "a" "z"; range "à" "ÿ"].
(** [[A-ZÀ-Ÿ][a-zà-ÿ]+] *)
Definition capword : regex := Seq upper (plus lower).
(** [(Mme|M\.|Monsieur|Madame)] *)
Definition civilite : regex :=
  Group 1 (alts [lit (py "Mme"); lit (py "M."); lit (py "Monsieur");
                 lit (py "Madame")]).
(** [\d{2}/\d{2}/\d{4}] *)
Definition date_shape : regex :=
  seqs [rep 2 bs_d; chr (ch "/"); rep 2 bs_d; chr (ch "/"); rep 4 bs_d].

(** *** The dictionaries of [self.data] *)

Record metadata : Type := Metadata {
  md_numero_devis : option str;
  md_date_devis : option Num.date;
  md_date_validite : option Num.date
}.

Record client : Type := Client {
  cl_nom : option str;
  cl_adresse : option str;
  cl_code_postal : option str;
  cl_ville : option str;
  cl_type_client : option str
}.

Record chantier : Type := Chantier {
  ch_adresse : option str;
  ch_complement : option str;
  ch_code_postal : option str;
  ch_ville : option str
}.

Record piece : Type := Piece {
  p_numero : str;
  p_nom : str;
  p_surface : Q
}.

Record ligne : Type := Ligne {
  l_numero_ligne : str;
  l_piece : option str;
  l_surface_piece : option Q;
  l_categorie : option str;
  l_designation : str;
  l_description : str;
  l_quantite : Q;
  l_unite : str;
  l_prix_unitaire_ht : Q;
  l_taux_tva : Q;
  l_total_ht : Q
}.

Record montants : Type := Montants {
  mt_total_ht : option Q;
  mt_tva_10_pct : option Q;
  mt_tva_20_pct : option Q;
  mt_total_ttc : option Q;
  mt_surface_totale : option Q
}.

Record pdf_info : Type := PdfInfo {
  pi_path : str;
  pi_hash : str
}.

Record data : Type := Data {
  d_metadata : metadata;
  d_client : client;
  d_chantier : chantier;
  d_pieces : list piece;
  d_lignes : list ligne;
  d_montants : montants;
  d_pdf_info : pdf_info
}.

Definition set_pieces (self : data) (ps : list piece) : data :=
  Data (d_metadata self) (d_client self) (d_chantier self) ps
       (d_lignes self) (d_montants self) (d_pdf_info self).

Definition set_lignes (self : data) (ls : list ligne) : data :=
  Data (d_metadata self) (d_client self) (d_chantier self) (d_pieces self)
       ls (d_montants self) (d_pdf_info self).

Definition set_montants (self : data) (m : montants) : data :=
  Data (d_metadata self) (d_client self) (d_chantier self) (d_pieces self)
       (d_lignes self) m (d_pdf_info self).

(** *** [_extract_metadata] *)

(** [N°\s*(D\d{6}-\d+)] *)
Definition num_re : regex :=
  seqs [lit (py "N°"); star bs_s;
        Group 1 (seqs [chr (ch "D"); rep 6 bs_d; chr (ch "-"); plus bs_d])].

(** [En date du\s*(\d{2}/\d{2}/\d{4})] *)
Definition date_re : regex :=
  seqs [lit (py "En date du"); star bs_s; Group 1 date_shape].

(** [valable jusqu\'au\s*(\d{2}/\d{2}/\d{4})] *)
Definition valide_re : regex :=
  seqs [lit (py "valable jusqu'au"); star bs_s; Group 1 date_shape].

(** A date field: absent when the pattern has no match, and the
    exception of [strptime] when the matched text is not a date. *)
Definition date_field (r : regex) (text : str) : result (option Num.date) :=
  match re_search r text with
  | Some m =>
    let date_str := group m 1 in
    let* dt := Num.strptime_dmY date_str in Ok (Some dt)
  | None => Ok None
  end.

Definition _extract_metadata (text : str) : result metadata :=
  let numero_devis :=
      match re_search num_re text with
      | Some num_match => Some (group num_match 1)
      | None => None
      end in
  let* date_devis := date_field date_re text in
  let* date_validite := date_field valide_re text in
  Ok (Metadata numero_devis date_devis date_validite).

(** *** [_extract_client_info] *)

(** [(Mme|M\.|Monsieur|Madame)\s+([A-ZÀ-Ÿ][a-zà-ÿ]+(?:\s+[A-ZÀ-Ÿ][a-zà-ÿ]+)+)] *)
Definition avec_prefix_re : regex :=
  seqs [civilite; plus bs_s;
        Group 2 (Seq capword (plus (Seq (plus bs_s) capword)))].

(** [^(Mme|M\.|Monsieur|Madame)\s+[A-ZÀ-Ÿ]] *)
Definition titre_debut_re : regex :=
  seqs [Bol; civilite; plus bs_s; upper].

(** [^(Mme|M\.|Monsieur|Madame)\s+], the pattern of the [re.sub]. *)
Definition titre_re : regex := seqs [Bol; civilite; plus bs_s].

(** [^[A-ZÀ-Ÿ][a-zà-ÿ]+(\s+[A-ZÀ-Ÿ][a-zà-ÿ]+)+$] *)
Definition nom_seul_re : regex :=
  seqs [Bol; capword; plus (Group 1 (Seq (plus bs_s) capword)); Eol].

(** [^\d+\s+] and [^\d{5}\s+] *)
Definition debut_nombre_re : regex := seqs [Bol; plus bs_d; plus bs_s].
Definition debut_cp_re : regex := seqs [Bol; rep 5 bs_d; plus bs_s].

Definition matched (o : option match_obj) : bool :=
  match o with Some _ => true | None => false end.

Definition is_empty (t : str) : bool :=
  match t with [] => true | _ => false end.

Definition is_nil {A : Type} (l : list A) : bool :=
  match l with [] => true | _ => false end.

(** Truth value of [client.get(key)]. *)
Definition truthy (o : option str) : bool :=
  match o with Some (_ :: _) => true | _ => false end.

(** [re.sub(r, '', t)] for a pattern anchored by [^]: only a match at
    offset 0 can be replaced, and what is left is the text after it. *)
Definition re_sub_anchored (r : regex) (t : str) : str :=
  match re_match r t with
  | Some m => m_rest m
  | None => t
  end.

Definition set_nom (c : client) (v : str) : client :=
  Client (Some v) (cl_adresse c) (cl_code_postal c) (cl_ville c)
         (cl_type_client c).
Definition set_adresse (c : client) (v : str) : client :=
  Client (cl_nom c) (Some v) (cl_code_postal c) (cl_ville c)
         (cl_type_client c).
Definition set_code_postal (c : client) (v : str) : client :=
  Client (cl_nom c) (cl_adresse c) (Some v) (cl_ville c)
         (cl_type_client c).
Definition set_ville (c : client) (v : str) : client :=
  Client (cl_nom c) (cl_adresse c) (cl_code_postal c) (Some v)
         (cl_type_client c).
Definition set_type_client (c : client) (v : str) : client :=
  Client (cl_nom c) (cl_adresse c) (cl_code_postal c) (cl_ville c)
         (Some v).

(** The inner loop of the first strategy,
    [for j in range(i+1, min(i+6, len(lines)))], over the indices left. *)
Fixpoint lookahead (lines : list str) (js : list nat) (c : client) : client :=
  match js with
  | [] => c
  | j :: js' =>
    let next_line := strip (nth j lines []) in
    if is_empty next_line || contains (py "SIRET") next_line
       || contains (py "RAPIDO") next_line
    then lookahead lines js' c
    else if negb (truthy (cl_adresse c))
            && matched (re_match debut_nombre_re next_line)
    then lookahead lines js' (set_adresse c next_line)
    else if matched (re_match debut_cp_re next_line) then
      (* [parts] has a first element: [next_line] is not blank *)
      match split_ws1 next_line with
      | [p0] => set_code_postal c p0
      | p0 :: p1 :: _ => set_ville (set_code_postal c p0) p1
      | [] => c
      end
    else lookahead lines js' c
  end.

(** The postal-code line of the second and third strategies. *)
Definition cp_ville (lines : list str) (i : nat) (c : client) : client :=
  if Nat.ltb (i + 2) (List.length lines)
     && matched (re_search (rep 5 bs_d) (nth (i + 2) lines []))
  then
    match split_ws (strip (nth (i + 2) lines [])) with
    | p0 :: p1 :: ps =>
      set_ville (set_code_postal c p0) (join (py " ") (p1 :: ps))
    | _ => c
    end
  else c.

(** The loop [for i, line in enumerate(lines)]: [rest] is [lines[i:]].
    Every branch that matches an anchor ends in [break]. *)
Fixpoint client_loop (lines : list str) (i : nat) (rest : list str)
         (c : client) : client :=
  match rest with
  | [] => c
  | line :: rest' =>
    let line_clean := strip line in
    match re_search avec_prefix_re line_clean with
    | Some match_avec_prefix =>
      let c := set_nom c (strip (group match_avec_prefix 2)) in
      lookahead lines
                (seq (i + 1) (Nat.min (i + 6) (List.length lines) - (i + 1)))
                c
    | None =>
      if matched (re_match titre_debut_re line_clean) then
        let nom_complet := re_sub_anchored titre_re line_clean in
        let c := set_nom c nom_complet in
        let c :=
            if Nat.ltb (i + 1) (List.length lines)
               && matched (re_search bs_d (nth (i + 1) lines []))
            then set_adresse c (strip (nth (i + 1) lines []))
            else c in
        cp_ville lines i c
      else if matched (re_match nom_seul_re line_clean) then
        let c := set_nom c line_clean in
        let c :=
            if Nat.ltb (i + 1) (List.length lines)
            then set_adresse c (strip (nth (i + 1) lines []))
            else c in
        cp_ville lines i c
      else client_loop lines (S i) rest' c
    end
  end.

Definition _extract_client_info (text : str) : client :=
  let client := Client None None None None None in
  let lines := split_on NL text in
  let client := client_loop lines 0 lines client in
  set_type_client client (py "PARTICULIER").

(** *** [_extract_chantier_info] *)

(** The pattern of the job-site block: the words [Adresse du chantier],
    then four groups, each after [\s*]: group 1 is [[^\n]+], group 2 is
    [[^\n]*], group 3 is [\d{5}] and group 4 is [[^\n]+].  It is compiled
    with [re.MULTILINE], which changes nothing in a pattern without
    anchors. *)
Definition chantier_re : regex :=
  seqs [lit (py "Adresse du chantier"); star bs_s;
        Group 1 (plus not_newline); star bs_s;
        Group 2 (star not_newline); star bs_s;
        Group 3 (rep 5 bs_d); star bs_s;
        Group 4 (plus not_newline)].

Definition _extract_chantier_info (text : str) : chantier :=
  match re_search chantier_re text with
  | Some m =>
    Chantier (Some (strip (group m 1)))
             (if startswith (py "(") (strip (group m 2))
              then Some (strip (group m 2)) else None)
             (Some (group m 3))
             (Some (strip (group m 4)))
  | None => Chantier None None None None
  end.

(** *** [_parse_table] *)

(** A cell of an extracted table is a [str] or [None]. *)
Definition cell := option str.
Definition row := list cell.
Definition table := list row.

(** [^(\d+)\s+(.+?)\s*-\s*([\d.]+)\s*m²] *)
Definition piece_re : regex :=
  seqs [Bol; Group 1 (plus bs_d); plus bs_s; Group 2 (plus_lazy dot);
        star bs_s; chr (ch "-"); star bs_s;
        Group 3 (plus (cls [isdigit; set "."])); star bs_s; lit (py "m²")].

(** [^(\d+\.\d+)\s+([A-ZÀÂÄÉÈÊËÏÎÔÙÛÜŸŒÆÇ][a-zàâäéèêëïîôùûüÿœæç\s/]+)$] *)
Definition cat_re : regex :=
  seqs [Bol; Group 1 (seqs [plus bs_d; chr (ch "."); plus bs_d]); plus bs_s;
        Group 2 (Seq (cls [range "A" "Z"; set "ÀÂÄÉÈÊËÏÎÔÙÛÜŸŒÆÇ"])
                     (plus (cls [range "a" "z"; set "àâäéèêëïîôùûüÿœæç";
                                 isspace; set "/"])));
        Eol].

(** [^(\d+\.\d+\.\d+)\s+(.+?)\s+(\d+(?:[.,]\d+)?)\s+(\w+)\s+([\d,]+)\s*€\s+([\d.]+)\s*%\s+([\d,]+)\s*€] *)
Definition ligne_re : regex :=
  seqs [Bol;
        Group 1 (seqs [plus bs_d; chr (ch "."); plus bs_d; chr (ch ".");
                       plus bs_d]);
        plus bs_s; Group 2 (plus_lazy dot); plus bs_s;
        Group 3 (Seq (plus bs_d) (opt (Seq (cls [set ".,"]) (plus bs_d))));
        plus bs_s; Group 4 (plus bs_w); plus bs_s;
        Group 5 (plus (cls [isdigit; set ","])); star bs_s; chr (ch "€");
        plus bs_s;
        Group 6 (plus (cls [isdigit; set "."])); star bs_s; chr (ch "%");
        plus bs_s;
        Group 7 (plus (cls [isdigit; set ","])); star bs_s; chr (ch "€")].

(** [s.replace(',', '.')] *)
Definition comma_to_dot (t : str) : str := replace (ch ",") (py ".") t.

(** The two running variables of one call of [_parse_table]. *)
Record locals : Type := Locals {
  current_piece : option piece;
  current_category : option str
}.

(** The body of [for row in table]: the locals and [self.data] after
    the row.  A [continue] leaves both as they were. *)
Definition row_body (r : row) (loc : locals) (self : data)
  : result (locals * data) :=
  match r with
  | [] | None :: _ | Some [] :: _ =>
    (* [not row or not row[0]] *)
    Ok (loc, self)
  | Some cell0 :: _ =>
    let line := strip cell0 in
    if contains (py "DÉSIGNATION") line || is_empty line then Ok (loc, self)
    else
      match re_match piece_re line with
      | Some piece_match =>
        let piece_num := group piece_match 1 in
        let piece_name := strip (group piece_match 2) in
        let* piece_surface := Num.float (group piece_match 3) in
        let current := Piece piece_num piece_name piece_surface in
        let self :=
            if existsb (fun p => str_eqb (p_numero p) piece_num)
                       (d_pieces self)
            then self
            else set_pieces self (d_pieces self ++ [current]) in
        Ok (Locals (Some current) (current_category loc), self)
      | None =>
        match re_match cat_re line with
        | Some cat_match =>
          Ok (Locals (current_piece loc) (Some (strip (group cat_match 2))),
              self)
        | None =>
          match re_match ligne_re line with
          | Some ligne_match =>
            let numero := group ligne_match 1 in
            let designation_et_desc := strip (group ligne_match 2) in
            let* quantite :=
               Num.float (comma_to_dot (group ligne_match 3)) in
            let unite := group ligne_match 4 in
            let* prix_unitaire :=
               Num.float (comma_to_dot (group ligne_match 5)) in
            let* tva := Num.float (group ligne_match 6) in
            let* total_ht :=
               Num.float (comma_to_dot (group ligne_match 7)) in
            let parts := split_first NL designation_et_desc in
            let designation := strip (nth 0 parts []) in
            let description :=
                if Nat.ltb 1 (List.length parts)
                then strip (nth 1 parts []) else [] in
            let l :=
                Ligne numero
                      (option_map p_nom (current_piece loc))
                      (option_map p_surface (current_piece loc))
                      (current_category loc) designation description
                      quantite unite prix_unitaire tva total_ht in
            Ok (loc, set_lignes self (d_lignes self ++ [l]))
          | None => Ok (loc, self)
          end
        end
      end
  end.

Fixpoint rows_loop (rows : list row) (loc : locals) (self : data)
  : result (locals * data) :=
  match rows with
  | [] => Ok (loc, self)
  | r :: rows' =>
    let* st := row_body r loc self in
    rows_loop rows' (fst st) (snd st)
  end.

(** [_parse_table]: a table with fewer than two rows is left unread; the
    two running variables start at [None] in every call. *)
Definition _parse_table (t : table) (self : data) : result data :=
  if is_nil t || Nat.ltb (List.length t) 2 then Ok self
  else
    let* st := rows_loop t (Locals None None) self in
    Ok (snd st).

(** *** [_extract_montants] *)

(** [[\d\s,]+] *)
Definition amount : regex := plus (cls [isdigit; isspace; set ","]).

(** [Total net HT\s*([\d\s,]+)\s*€] *)
Definition ht_re : regex :=
  seqs [lit (py "Total net HT"); star bs_s; Group 1 amount; star bs_s;
        chr (ch "€")].

(** [TVA\s*\(10\.0%\)\s*([\d\s,]+)\s*€] *)
Definition tva10_re : regex :=
  seqs [lit (py "TVA"); star bs_s; lit (py "(10.0%)"); star bs_s;
        Group 1 amount; star bs_s; chr (ch "€")].

(** [TVA\s*\(20\.0%\)\s*([\d\s,]+)\s*€] *)
Definition tva20_re : regex :=
  seqs [lit (py "TVA"); star bs_s; lit (py "(20.0%)"); star bs_s;
        Group 1 amount; star bs_s; chr (ch "€")].

(** [Total TTC\s*([\d\s,]+)\s*€] *)
Definition ttc_re : regex :=
  seqs [lit (py "Total TTC"); star bs_s; Group 1 amount; star bs_s;
        chr (ch "€")].

(** [t.replace(' ', '').replace(',', '.')] *)
Definition clean_amount (t : str) : str :=
  comma_to_dot (replace SP [] t).

(** One of the four fields: absent without a match, the converted amount
    with one, and the exception of [float] when the conversion fails. *)
Definition amount_field (r : regex) (text : str) : result (option Q) :=
  match re_search r text with
  | Some m => let* v := Num.float (clean_amount (group m 1)) in Ok (Some v)
  | None => Ok None
  end.

(** [sum(p['surface'] for p in pieces)], on the decimal values: the
    rounding of each float addition is not part of the model. *)
Definition sum_surfaces (ps : list piece) : Q :=
  Qred (fold_left Qplus (map p_surface ps) 0%Q).

Definition _extract_montants (self : data) (text : str) : result montants :=
  let* total_ht := amount_field ht_re text in
  let* tva_10_pct := amount_field tva10_re text in
  let* tva_20_pct := amount_field tva20_re text in
  let* total_ttc := amount_field ttc_re text in
  let surface_totale :=
      match d_pieces self with
      | [] => None
      | ps => Some (sum_surfaces ps)
      end in
  Ok (Montants total_ht tva_10_pct tva_20_pct total_ttc surface_totale).

(** *** [_calculate_pdf_hash] *)

(** The successive results of [f.read(4096)] up to the empty one. *)
Fixpoint read_blocks (fuel : nat) (content : list Byte.byte)
  : list (list Byte.byte) :=
  match fuel with
  | O => []
  | S fuel' =>
    match content with
    | [] => []
    | _ => firstn 4096 content :: read_blocks fuel' (skipn 4096 content)
    end
  end.

(** A file as the parser sees it: its path, the bytes that
    [open(path, "rb")] reads (or the exception it raises), and the pages
    that [pdfplumber.open] builds from it (or the exception it raises). *)
Record page : Type := Page {
  page_text : str;
  page_tables : list table
}.

Record pdf_file : Type := PdfFile {
  pdf_path : str;
  pdf_bytes : result (list Byte.byte);
  pdf_pages : result (list page)
}.

Definition hash_bytes (content : list Byte.byte) : str :=
  Hashlib.hexdigest
    (fold_left Hashlib.update (read_blocks (List.length content) content)
               Hashlib.sha256).

Definition _calculate_pdf_hash (f : pdf_file) : result str :=
  let* content := pdf_bytes f in
  Ok (hash_bytes content).

(** *** [parse] *)

(** [for table in tables: self._parse_table(table)] *)
Fixpoint parse_tables (tables : list table) (self : data) : result data :=
  match tables with
  | [] => Ok self
  | t :: ts => let* self := _parse_table t self in parse_tables ts self
  end.

(** [for page in pdf.pages: ...] *)
Fixpoint parse_pages (pages : list page) (self : data) : result data :=
  match pages with
  | [] => Ok self
  | p :: ps =>
    let* self := parse_tables (page_tables p) self in parse_pages ps self
  end.

Definition empty_montants : montants := Montants None None None None None.

Definition parse (f : pdf_file) : result data :=
  let* pages := pdf_pages f in
  match pages with
  | [] => Raise (IndexError (py "list index out of range"))
  | first_page :: _ =>
    let text_content := page_text first_page in
    let* md := _extract_metadata text_content in
    let cl := _extract_client_info text_content in
    let cht := _extract_chantier_info text_content in
    let* h := _calculate_pdf_hash f in
    let self := Data md cl cht [] [] empty_montants
                     (PdfInfo (pdf_path f) h) in
    let* self := parse_pages pages self in
    let last_page_text := page_text (last pages first_page) in
    let* mt := _extract_montants self last_page_text in
    Ok (set_montants self mt)
  end.

End RapidoDevisParser.

(* ================================================================== *)
(** ** The batch loops *)

Module Batch.
Import RapidoDevisParser.

(** [Path(p).name]: the last component of a path. *)
Definition path_name (p : str) : str := last (split_on 47%N p) [].

(** *** [test_parser_batch.py] *)

(** One row of the report. *)
Record report_row : Type := ReportRow {
  fichier : str;
  succes : bool;
  numero_devis : option str;
  client_nom : option str;
  client_ville : option str;
  nb_pieces : nat;
  nb_lignes : nat;
  montant_ht : Q;
  montant_ttc : Q;
  erreur : option str
}.

(** [d.get(key, 0)] on an amount. *)
Definition get_or_zero (o : option Q) : Q :=
  match o with Some v => v | None => 0%Q end.

(** The body of [for pdf_file in pdfs]: the row starts as a failure
    without error text; the [try] fills it from the parsed data, the
    [except Exception as e] stores [str(e)]. *)
Definition report_of (pdf : pdf_file) : report_row :=
  let name := path_name (pdf_path pdf) in
  match parse pdf with
  | Ok data =>
    ReportRow name true
              (md_numero_devis (d_metadata data))
              (cl_nom (d_client data))
              (cl_ville (d_client data))
              (List.length (d_pieces data))
              (List.length (d_lignes data))
              (get_or_zero (mt_total_ht (d_montants data)))
              (get_or_zero (mt_total_ttc (d_montants data)))
              None
  | Raise e =>
    ReportRow name false None None None 0 0 0%Q 0%Q (Some (str_exn e))
  end.

(** [test_parser_batch(pdf_dir, limit)], up to the report it returns:
    [pdf_dir] is the list that [glob("*.pdf")] yields.  The statistics it
    prints and the CSV file it writes are outside the model. *)
Definition test_parser_batch (pdf_dir : list pdf_file) (limit : nat)
  : list report_row :=
  let pdfs := firstn limit pdf_dir in
  fold_left (fun results pdf => results ++ [report_of pdf]) pdfs [].

(** *** [RapidoDevisETL.extract_pdfs] *)

(** The merged record [{**metadata, **client, **montants, ...}]: the
    three dictionaries have no key in common. *)
Record devis : Type := Devis {
  dv_metadata : metadata;
  dv_client : client;
  dv_montants : montants;
  dv_adresse_chantier : option str;
  dv_code_postal_chantier : option str;
  dv_ville_chantier : option str;
  dv_pdf_path : str;
  dv_pdf_hash : str
}.

Record error_entry : Type := ErrorEntry {
  ee_fichier : str;
  ee_erreur : str
}.

(** The four accumulators, which are returned as the frames [devis],
    [pieces], [lignes] and [errors] (the docstring of [extract_pdfs]
    names the first three only); pieces and lines carry the
    [numero_devis] that the loop adds to them. *)
Record extraction : Type := Extraction {
  all_devis : list devis;
  all_lignes : list (ligne * option str);
  all_pieces : list (piece * option str);
  errors : list error_entry
}.

Definition extract_body (acc : extraction) (pdf : pdf_file) : extraction :=
  match parse pdf with
  | Ok data =>
    let dv := Devis (d_metadata data) (d_client data) (d_montants data)
                    (ch_adresse (d_chantier data))
                    (ch_code_postal (d_chantier data))
                    (ch_ville (d_chantier data))
                    (pdf_path pdf)
                    (pi_hash (d_pdf_info data)) in
    let numero := md_numero_devis (dv_metadata dv) in
    Extraction (all_devis acc ++ [dv])
               (all_lignes acc ++ map (fun l => (l, numero)) (d_lignes data))
               (all_pieces acc ++ map (fun p => (p, numero)) (d_pieces data))
               (errors acc)
  | Raise e =>
    Extraction (all_devis acc) (all_lignes acc) (all_pieces acc)
               (errors acc
                ++ [ErrorEntry (path_name (pdf_path pdf)) (str_exn e)])
  end.

(** [extract_pdfs(pdf_directory, limit)]: [if limit:] is false for
    [None] and for 0, and the list is then taken whole. *)
Definition extract_pdfs (pdf_directory : list pdf_file) (limit : option nat)
  : extraction :=
  let pdf_files :=
      match limit with
      | Some (S n) => firstn (S n) pdf_directory
      | _ => pdf_directory
      end in
  fold_left extract_body pdf_files (Extraction [] [] [] []).

End Batch.

(* ================================================================== *)
(** ** Vocabulary of the statements *)

Module Spec.
Import Re RapidoDevisParser.

(** What a pattern matches, as a relation: [matches r pos a b] says that
    [r] matches the text [a] at offset [pos] when [b] is what follows.
    Repetitions are cut into iterations that consume something, as the
    engine runs them. *)
Inductive matches : regex -> nat -> str -> str -> Prop :=
| M_Eps : forall pos b, matches Eps pos [] b
| M_Bol : forall b, matches Bol 0 [] b
| M_Eol_end : forall pos, matches Eol pos [] []
| M_Eol_nl : forall pos, matches Eol pos [] [NL]
| M_Chr : forall (p : codepoint -> bool) x pos b,
    p x = true -> matches (Chr p) pos [x] b
| M_Seq : forall r1 r2 pos a1 a2 b,
    matches r1 pos a1 (a2 ++ b) ->
    matches r2 (pos + List.length a1) a2 b ->
    matches (Seq r1 r2) pos (a1 ++ a2) b
| M_AltL : forall r1 r2 pos a b,
    matches r1 pos a b -> matches (Alt r1 r2) pos a b
| M_AltR : forall r1 r2 pos a b,
    matches r2 pos a b -> matches (Alt r1 r2) pos a b
| M_Group : forall i r pos a b,
    matches r pos a b -> matches (Group i r) pos a b
| M_StarNil : forall g r pos b, matches (Star g r) pos [] b
| M_StarCons : forall g r pos a1 a2 b,
    a1 <> [] ->
    matches r pos a1 (a2 ++ b) ->
    matches (Star g r) (pos + List.length a1) a2 b ->
    matches (Star g r) pos (a1 ++ a2) b.

Section Groups.
(** A property [Q i] of the text of group [i]. *)
Variable Q : nat -> str -> Prop.

Fixpoint groups_ok (r : regex) : Prop :=
  match r with
  | Seq r1 r2 | Alt r1 r2 => groups_ok r1 /\ groups_ok r2
  | Star _ r1 => groups_ok r1
  | Group i r1 =>
    groups_ok r1 /\ (forall pos a b, matches r1 pos a b -> Q i a)
  | _ => True
  end.

Definition caps_ok (c : captures) : Prop :=
  forall i v, In (i, v) c -> Q i v.
(** Every character class of the pattern lies within [P]. *)
Fixpoint all_chr (P : codepoint -> bool) (r : regex) : Prop :=
  match r with
  | Chr p => forall x, p x = true -> P x = true
  | Seq r1 r2 | Alt r1 r2 => all_chr P r1 /\ all_chr P r2
  | Star _ r1 | Group _ r1 => all_chr P r1
  | _ => True
  end.
End Groups.


(** What a successful run of a matcher tells: the text splits into a
    matched part and a rest on which the continuation gave the result,
    with captures that still satisfy [Q]. *)
Definition sound_at (R : Type) (Q : nat -> str -> Prop) (r : regex)
           (step : nat -> str -> captures -> cont R -> option R) : Prop :=
  forall pos s c (k : cont R) res,
    step pos s c k = Some res ->
    exists a b c',
      s = a ++ b /\ matches r pos a b
      /\ k (pos + List.length a) b c' = Some res
      /\ (caps_ok Q c -> caps_ok Q c').

(** Conversely, a matcher finds a result as soon as the relation holds
    for some split after which the continuation succeeds whatever the
    captures. *)
Definition complete_at (R : Type) (r : regex)
           (step : nat -> str -> captures -> cont R -> option R) : Prop :=
  forall pos a b c (k : cont R),
    matches r pos a b ->
    (forall c', k (pos + List.length a) b c' <> None) ->
    step pos (a ++ b) c k <> None.

Arguments sound_at : clear implicits.
Arguments complete_at : clear implicits.

(** *** Rows of a table, as the spec names them *)

(** The converted fields of a priced line. *)
Record ligne_fields : Type := LigneFields {
  f_numero : str;
  f_designation : str;
  f_description : str;
  f_quantite : Q;
  f_unite : str;
  f_prix_unitaire : Q;
  f_tva : Q;
  f_total_ht : Q
}.

(** The classes of rows of the spec (sub-area header, category header,
    priced line item, noise), with two more for what the code does
    besides: a row it does not read, and a row whose numbers [float]
    refuses. *)
Inductive row_kind : Type :=
| RSkip
| RPiece (p : piece)
| RCategory (phrase : str)
| RLigne (fs : ligne_fields)
| RNoise
| RError (e : exn).

(** The rows that the guards at the head of the loop body pass over. *)
Definition skipped_row (r : row) : bool :=
  match r with
  | [] | None :: _ | Some [] :: _ => true
  | Some cell0 :: _ =>
    contains (py "DÉSIGNATION") (strip cell0) || is_empty (strip cell0)
  end.

(** The first cell of a row that is read, stripped. *)
Definition row_line (r : row) : str :=
  match r with
  | Some cell0 :: _ => strip cell0
  | _ => []
  end.

Definition ligne_of_match (m : match_obj) : result ligne_fields :=
  let* quantite := Num.float (comma_to_dot (group m 3)) in
  let* prix_unitaire := Num.float (comma_to_dot (group m 5)) in
  let* tva := Num.float (group m 6) in
  let* total_ht := Num.float (comma_to_dot (group m 7)) in
  let parts := split_first NL (strip (group m 2)) in
  Ok (LigneFields (group m 1) (strip (nth 0 parts []))
                  (if Nat.ltb 1 (List.length parts)
                   then strip (nth 1 parts []) else [])
                  quantite (group m 4) prix_unitaire tva total_ht).

(** The three patterns in order, first match wins. *)
Definition classify (r : row) : row_kind :=
  if skipped_row r then RSkip
  else
    let line := row_line r in
    match re_match piece_re line with
    | Some m =>
      match Num.float (group m 3) with
      | Ok v => RPiece (Piece (group m 1) (strip (group m 2)) v)
      | Raise e => RError e
      end
    | None =>
      match re_match cat_re line with
      | Some m => RCategory (strip (group m 2))
      | None =>
        match re_match ligne_re line with
        | Some m =>
          match ligne_of_match m with
          | Ok fs => RLigne fs
          | Raise e => RError e
          end
        | None => RNoise
        end
      end
    end.

Definition mk_ligne (fs : ligne_fields) (cp : option piece)
           (cat : option str) : ligne :=
  Ligne (f_numero fs) (option_map p_nom cp) (option_map p_surface cp) cat
        (f_designation fs) (f_description fs) (f_quantite fs) (f_unite fs)
        (f_prix_unitaire fs) (f_tva fs) (f_total_ht fs).

(** Append a sub-area unless its number is already there. *)
Definition add_piece (ps : list piece) (p : piece) : list piece :=
  if existsb (fun q => str_eqb (p_numero q) (p_numero p)) ps
  then ps else ps ++ [p].

(** What a row of each class does to the locals and to [self.data]. *)
Definition apply_kind (k : row_kind) (loc : locals) (self : data)
  : result (locals * data) :=
  match k with
  | RSkip | RNoise => Ok (loc, self)
  | RPiece p =>
    Ok (Locals (Some p) (current_category loc),
        if existsb (fun q => str_eqb (p_numero q) (p_numero p))
                   (d_pieces self)
        then self else set_pieces self (d_pieces self ++ [p]))
  | RCategory phrase => Ok (Locals (current_piece loc) (Some phrase), self)
  | RLigne fs =>
    Ok (loc,
        set_lignes self
                   (d_lignes self
                    ++ [mk_ligne fs (current_piece loc)
                                 (current_category loc)]))
  | RError e => Raise e
  end.

(** The category in force after some rows: the phrase of the last
    category header among them, or what it was before. *)
Definition last_category (rows : list row) (init : option str)
  : option str :=
  fold_left (fun acc r =>
               match classify r with
               | RCategory phrase => Some phrase
               | _ => acc
               end) rows init.

(** The sub-area in force after some rows. *)
Definition last_piece (rows : list row) (init : option piece)
  : option piece :=
  fold_left (fun acc r =>
               match classify r with
               | RPiece p => Some p
               | _ => acc
               end) rows init.

(** The sub-area headers among some rows, in order. *)
Definition piece_headers (rows : list row) : list piece :=
  flat_map (fun r => match classify r with RPiece p => [p] | _ => [] end)
           rows.

Definition is_ligne (r : row) : bool :=
  match classify r with RLigne _ => true | _ => false end.

(** The rows that the walk reads: those of the tables with two rows or
    more, page after page. *)
Definition read_rows (tables : list table) : list row :=
  flat_map (fun t => if Nat.leb 2 (List.length t) then t else []) tables.

Definition document_tables (pages : list page) : list table :=
  flat_map page_tables pages.

Definition with_numero (n : str) (ps : list piece) : option piece :=
  find (fun p => str_eqb (p_numero p) n) ps.

(** The line items that a walk of some rows appends, from the sub-area
    and the category in force when it starts. *)
Fixpoint emitted (rows : list row) (cp : option piece) (cat : option str)
  : list ligne :=
  match rows with
  | [] => []
  | r :: rows' =>
    match classify r with
    | RPiece p => emitted rows' (Some p) cat
    | RCategory phrase => emitted rows' cp (Some phrase)
    | RLigne fs => mk_ligne fs cp cat :: emitted rows' cp cat
    | _ => emitted rows' cp cat
    end
  end.

(** No row of the list has numbers that [float] refuses. *)
Definition convertible (rows : list row) : Prop :=
  forall r e, In r rows -> classify r <> RError e.

(** The line items that one table contributes. *)
Definition table_lignes (t : table) : list ligne :=
  if Nat.leb 2 (List.length t) then emitted t None None else [].

(** [self.data] as [parse] builds it before the tables are read, for a
    document without metadata. *)
Definition blank : data :=
  Data (Metadata None None None) (Client None None None None None)
       (Chantier None None None None) [] [] empty_montants (PdfInfo [] []).

(** A row whose first cell holds the given text. *)
Definition row_of (s : string) : row := [Some (py s)].

(** The fields of [self.data] other than the two lists agree. *)
Definition same_header (a b : data) : Prop :=
  d_metadata a = d_metadata b /\ d_client a = d_client b
  /\ d_chantier a = d_chantier b /\ d_montants a = d_montants b
  /\ d_pdf_info a = d_pdf_info b.

(** *** Alphabets of the captured numbers *)

Definition not_nl (c : codepoint) : bool := negb (c =? NL)%N.
(** Digits, the point and the comma. *)
Definition num_char (c : codepoint) : bool :=
  isdigit c || (c =? Num.DOT)%N || (c =? Num.COMMA)%N.
(** Digits and the plain space. *)
Definition digit_or_space (c : codepoint) : bool :=
  isdigit c || (c =? SP)%N.

(** What the groups of the priced-line pattern can hold: no newline in
    the free text, digits and separators in the four numbers. *)
Definition ligne_group (i : nat) (v : str) : Prop :=
  match i with
  | 2 => forallb not_nl v = true
  | 3 | 5 | 6 | 7 => forallb num_char v = true
  | _ => True
  end.

(** A priced row whose free text runs over two lines of the cell, and
    one whose unit price has a space between the thousands. *)
Definition two_line_row : row :=
  [Some (py "1.1.1 Peinture murale" ++ NL
            :: py "Deux couches 10 m2 25,00 € 10.0 % 250,00 €")].
Definition spaced_price_row : row :=
  row_of "1.1.1 Parquet massif 10 m2 1 234,56 € 10.0 % 12 345,60 €".
(** A priced row whose quantity has a space between the thousands. *)
Definition spaced_quantity_row : row :=
  row_of "1.1.1 Parquet massif 1 234 m2 25,00 € 10.0 % 30850,00 €".

(** *** Amounts of the totals block *)

(** [[\d\s,]] *)
Definition amount_char (c : codepoint) : bool :=
  existsb (fun p => p c) [isdigit; isspace; set ","].

(** A label phrase: its words in order, with any white space between
    two of them. *)
Inductive label_text : list str -> str -> Prop :=
| LT_one : forall w, label_text [w] w
| LT_cons : forall w ws sp t,
    forallb isspace sp = true ->
    label_text ws t ->
    label_text (w :: ws) (w ++ sp ++ t).

(** The label phrase, followed by a number and the Euro sign, occurs in
    the text. *)
Definition amount_occurs (words : list str) (text : str) : Prop :=
  exists pre lab num post,
    text = pre ++ lab ++ num ++ ch "€" :: post
    /\ label_text words lab
    /\ num <> []
    /\ forallb amount_char num = true.

(** The end of the four patterns of the totals: white space, the group
    of the amount, white space, the Euro sign. *)
Definition amount_tail : regex :=
  Seq (star bs_s) (Seq (Group 1 amount) (Seq (star bs_s) (chr (ch "€")))).

(** The four patterns of the totals block, each with the field that it
    fills. *)
Definition total_fields : list (regex * (montants -> option Q)) :=
  [ (ht_re, mt_total_ht); (tva10_re, mt_tva_10_pct);
    (tva20_re, mt_tva_20_pct); (ttc_re, mt_total_ttc) ].

(** The amount that a pattern of the totals block captures in the text,
    after the two replacements; none when the pattern has no match. *)
Definition captured (r : regex) (text : str) : option str :=
  option_map (fun m => clean_amount (group m 1)) (re_search r text).

(** [float] refuses the amount that the pattern captures. *)
Definition refused (r : regex) (text : str) : Prop :=
  exists t, captured r text = Some t /\ Num.float_value t = None.

(** The decimal number of the digits [ds], the last [n] of which stand
    after the point. *)
Definition decimal (ds : str) (n : nat) : Q :=
  Qred (Num.Z_of_digits ds # Z.to_pos (10 ^ Z.of_nat n)).

(** *** Anchors of the client block *)

Definition anchor1 (line : str) : option match_obj :=
  re_search avec_prefix_re (strip line).
Definition anchor2 (line : str) : bool :=
  matched (re_match titre_debut_re (strip line)).
Definition anchor3 (line : str) : bool :=
  matched (re_match nom_seul_re (strip line)).
Definition is_anchor (line : str) : bool :=
  matched (anchor1 line) || anchor2 line || anchor3 line.

(** The lines that the first strategy passes over among those after the
    anchor line: the blank ones and those that name SIRET or RAPIDO. *)
Definition passed_line (l : str) : bool :=
  is_empty l || contains (py "SIRET") l || contains (py "RAPIDO") l.

Definition starts_number (l : str) : bool :=
  matched (re_match debut_nombre_re l).
Definition starts_cp (l : str) : bool :=
  matched (re_match debut_cp_re l).

(** The lines that the first strategy reads: the five lines after the
    anchor line, stripped, without those it passes over. *)
Definition candidates (post : list str) : list str :=
  filter (fun l => negb (passed_line l)) (map strip (firstn 5 post)).

(** What follows the first element that satisfies [p]. *)
Fixpoint after (p : str -> bool) (ls : list str) : list str :=
  match ls with
  | [] => []
  | l :: ls' => if p l then ls' else after p ls'
  end.

(** The client of the first strategy, from the match of its anchor and
    the lines after the anchor line: the name is the second group; the
    address is the first line read that starts with a number; the postal
    code and the city are the first word and the remainder of the first
    line read after the address that starts with five digits. *)
Definition strategy1 (m : match_obj) (post : list str) : client :=
  let cp := find starts_cp (after starts_number (candidates post)) in
  Client (Some (strip (group m 2)))
         (find starts_number (candidates post))
         (match cp with Some l => nth_error (split_ws1 l) 0 | None => None end)
         (match cp with Some l => nth_error (split_ws1 l) 1 | None => None end)
         (Some (py "PARTICULIER")).

(** The postal code and the city of the second and third strategies:
    the first word and the other words of the second line after the
    anchor line, when that line holds five digits in a row and two words
    at least. *)
Definition cp_words (post : list str) : option (str * str) :=
  match post with
  | _ :: l2 :: _ =>
    if matched (re_search (rep 5 bs_d) l2) then
      match split_ws (strip l2) with
      | p0 :: p1 :: ps => Some (p0, join (py " ") (p1 :: ps))
      | _ => None
      end
    else None
  | _ => None
  end.

(** The client of the second strategy: the anchor line without its
    title as name, the next line as address when it holds a digit. *)
Definition strategy2 (line : str) (post : list str) : client :=
  Client (Some (re_sub_anchored titre_re (strip line)))
         (match post with
          | l1 :: _ =>
            if matched (re_search bs_d l1) then Some (strip l1) else None
          | [] => None
          end)
         (option_map fst (cp_words post))
         (option_map snd (cp_words post))
         (Some (py "PARTICULIER")).

(** The client of the third strategy: the anchor line as name, the next
    line as address, whatever it holds. *)
Definition strategy3 (line : str) (post : list str) : client :=
  Client (Some (strip line))
         (option_map strip (hd_error post))
         (option_map fst (cp_words post))
         (option_map snd (cp_words post))
         (Some (py "PARTICULIER")).

(** *** Header fields *)







(** *** Digests *)


(** *** Batches *)

(** The files that [extract_pdfs] goes through. *)
Definition limited (pdf_directory : list pdf_file) (limit : option nat)
  : list pdf_file :=
  match limit with
  | Some (S n) => firstn (S n) pdf_directory
  | _ => pdf_directory
  end.

(** The error entry of a file, if its parse raises. *)
Definition error_of (pdf : pdf_file) : list Batch.error_entry :=
  match parse pdf with
  | Ok _ => []
  | Raise e =>
    [Batch.ErrorEntry (Batch.path_name (pdf_path pdf)) (str_exn e)]
  end.




(** *** Worked inputs *)

Module Ex.

Definition header_cuisine : row := row_of "1 Cuisine - 12.5 m²".
Definition header_cuisine_bis : row := row_of "1 Cuisine - 13 m²".
Definition header_salon : row := row_of "2 Salon - 20 m²".
Definition designation_row : row := row_of "DÉSIGNATION".
Definition category_row : row := row_of "1.1 Revêtements".
Definition ligne_row : row :=
  row_of "1.1.1 Peinture murale 10 m2 25,00 € 10.0 % 250,00 €".
Definition ligne_row_2 : row :=
  row_of "1.1.2 Enduit 2,5 u 1,50 € 20.0 % 3,75 €".

(** A file of the given pages, with no bytes. *)
Definition file_of (pages : list page) : pdf_file :=
  PdfFile (py "data/pdfs/devis.pdf") (Ok []) (Ok pages).

(** Two pages; the sub-area 1 is declared on both, with two areas. *)
Definition two_pages : pdf_file :=
  file_of [ Page [] [[header_cuisine; category_row; ligne_row]];
            Page [] [[header_cuisine_bis; ligne_row_2; header_salon]] ].

(** The sub-area 1 declared alone in a table of one row, then again
    with another area in a table of two rows. *)
Definition late_header : pdf_file :=
  file_of [ Page [] [[header_cuisine]; [designation_row; header_cuisine_bis]] ].

(** The sub-area 1 declared twice, each time alone in its table. *)
Definition lone_headers : pdf_file :=
  file_of [ Page [] [[header_cuisine]]; Page [] [[header_cuisine_bis]] ].

(** A category header in one table, priced lines in the next. *)
Definition split_tables : list table :=
  [ [header_cuisine; category_row]; [ligne_row; ligne_row_2] ].

(** One table with header, category and two priced lines. *)
Definition one_table : table :=
  [header_cuisine; category_row; ligne_row; ligne_row_2].

(** The text of a page from its lines. *)
Definition text_of (ls : list string) : str := join [NL] (map py ls).

(** A first page whose issue date is the 31st of February. *)
Definition bad_date_text : str :=
  text_of ["Devis N° D202501-001"; "En date du 31/02/2025";
           "valable jusqu'au 15/03/2025"]%string.

(** The first page of scenario A of the spec. *)
Definition scenario_a_text : str :=
  text_of ["N° D202501-001"; "En date du 15/01/2025"; "Mme Marie Dupont";
           "12 rue des Fleurs"; "75001 Paris"]%string.

(** The issuer's name on a line of its own, before the client's. *)
Definition issuer_first_text : str :=
  text_of ["Rapido Devis"; "Mme Marie Dupont"; "12 rue des Fleurs";
           "75001 Paris"]%string.

(** The last page of scenario C of the spec. *)
Definition scenario_c_text : str :=
  text_of ["Total net HT 1 000,00 €"; "Total TTC 1 100,00 €"]%string.

(** A net total without digits. *)
Definition bad_total_text : str :=
  text_of ["Total net HT , €"; "Total TTC 1 100,00 €"]%string.

(** A net total whose thousands are separated by a no-break space. *)
Definition nbsp_total_text : str :=
  py "Total net HT 1" ++ 160%N :: py "000,00 €".

(** A net total of 1 234,56. *)
Definition spaced_total_text : str := py "Total net HT 1 234,56 €".


(** A directory of three files, the second of which the PDF library
    cannot open. *)
Definition not_a_pdf : pdf_file :=
  PdfFile (py "data/pdfs/b.pdf") (Ok [])
          (Raise (LibraryError (py "No /Root object! - Is this really a PDF?"))).

(** A file for which the PDF library raises an exception that has no
    message. *)
Definition silent_failure : pdf_file :=
  PdfFile (py "data/pdfs/b.pdf") (Ok []) (Raise (LibraryError [])).

Definition three_files : list pdf_file :=
  [ PdfFile (py "data/pdfs/a.pdf") (Ok [])
            (Ok [Page scenario_a_text [one_table]]);
    not_a_pdf;
    PdfFile (py "data/pdfs/c.pdf") (Ok [])
            (Ok [Page scenario_c_text [[header_salon; ligne_row]]]) ].

End Ex.



End Spec.

(* ================================================================== *)
(** * Properties *)

Import Re Spec.

(** ** The matcher and the matching relation *)

Section MatcherSound.
Variable R : Type.
Variable Q : nat -> str -> Prop.

Lemma star_loop_sound (g : bool) (r : regex) step :
  sound_at R Q r step ->
  forall (k : cont R) fuel pos s c res,
    star_loop step g k fuel pos s c = Some res ->
    exists a b c',
      s = a ++ b /\ matches (Star g r) pos a b
      /\ k (pos + List.length a) b c' = Some res
      /\ (caps_ok Q c -> caps_ok Q c').
Proof.
  intros Hstep k fuel.
  induction fuel as [|fuel IH]; intros pos s c res H; simpl in H.
  - exists [], s, c. simpl. rewrite Nat.add_0_r.
    repeat split; auto. constructor.
  - assert (Hagain :
              step pos s c
                   (fun pos' s' c' =>
                      if Nat.ltb pos pos'
                      then star_loop step g k fuel pos' s' c' else None)
              = Some res ->
              exists a b c',
                s = a ++ b /\ matches (Star g r) pos a b
                /\ k (pos + List.length a) b c' = Some res
                /\ (caps_ok Q c -> caps_ok Q c')).
    { intros H1. apply Hstep in H1.
      destruct H1 as (a1 & b1 & c1 & -> & Hm & Hk & Hc).
      destruct (Nat.ltb pos (pos + List.length a1)) eqn:E; [|discriminate].
      apply Nat.ltb_lt in E.
      apply IH in Hk. destruct Hk as (a2 & b2 & c2 & -> & Hm2 & Hk2 & Hc2).
      exists (a1 ++ a2), b2, c2.
      rewrite length_app, Nat.add_assoc, <- app_assoc.
      repeat split; auto.
      apply M_StarCons; auto.
      destruct a1; simpl in E; [lia | discriminate]. }
    assert (Hstop :
              k pos s c = Some res ->
              exists a b c',
                s = a ++ b /\ matches (Star g r) pos a b
                /\ k (pos + List.length a) b c' = Some res
                /\ (caps_ok Q c -> caps_ok Q c')).
    { intros H1. exists [], s, c. simpl. rewrite Nat.add_0_r.
      repeat split; auto. constructor. }
    destruct g.
    + destruct (step pos s c _) eqn:E.
      * inversion H; subst. apply Hagain. reflexivity.
      * apply Hstop, H.
    + destruct (k pos s c) eqn:E.
      * inversion H; subst. apply Hstop. reflexivity.
      * apply Hagain, H.
Qed.

Lemma run_sound (r : regex) :
  groups_ok Q r -> sound_at R Q r (run (R:=R) r).
Proof.
  induction r; intros Hg pos s c k res H; simpl in H.
  - exists [], s, c. simpl. rewrite Nat.add_0_r. repeat split; auto. constructor.
  - destruct (Nat.eqb pos 0) eqn:E; [|discriminate].
    apply Nat.eqb_eq in E. subst.
    exists [], s, c. simpl. repeat split; auto. constructor.
  - destruct s as [|x [|y s]].
    + exists [], [], c. simpl. rewrite Nat.add_0_r. repeat split; auto. constructor.
    + destruct (N.eqb x NL) eqn:E; [|discriminate].
      apply N.eqb_eq in E. subst.
      exists [], [NL], c. simpl. rewrite Nat.add_0_r. repeat split; auto. constructor.
    + discriminate.
  - destruct s as [|x s]; [discriminate|].
    destruct (p x) eqn:E; [|discriminate].
    exists [x], s, c. simpl. replace (pos + 1) with (S pos) by lia.
    repeat split; auto. constructor; auto.
  - destruct Hg as [Hg1 Hg2].
    apply (IHr1 Hg1) in H. destruct H as (a1 & b1 & c1 & -> & Hm1 & Hk1 & Hc1).
    apply (IHr2 Hg2) in Hk1. destruct Hk1 as (a2 & b2 & c2 & -> & Hm2 & Hk2 & Hc2).
    exists (a1 ++ a2), b2, c2.
    rewrite length_app, Nat.add_assoc, <- app_assoc.
    repeat split; auto. constructor; auto.
  - destruct Hg as [Hg1 Hg2].
    destruct (run r1 pos s c k) eqn:E.
    + inversion H; subst.
      apply (IHr1 Hg1) in E. destruct E as (a & b & c' & -> & Hm & Hk & Hc).
      exists a, b, c'. repeat split; auto. apply M_AltL; auto.
    + apply (IHr2 Hg2) in H. destruct H as (a & b & c' & -> & Hm & Hk & Hc).
      exists a, b, c'. repeat split; auto. apply M_AltR; auto.
  - apply (@star_loop_sound greedy r _ (IHr Hg)) in H. exact H.
  - destruct Hg as [Hg1 HQ].
    apply (IHr Hg1) in H. destruct H as (a & b & c' & -> & Hm & Hk & Hc).
    replace (pos + List.length a - pos) with (List.length a) in Hk by lia.
    rewrite firstn_app, Nat.sub_diag, firstn_all in Hk. simpl in Hk.
    rewrite app_nil_r in Hk.
    exists a, b, ((i, a) :: c'). repeat split; auto.
    + constructor; auto.
    + intros Hc0 j v [Hin|Hin].
      * inversion Hin; subst. eapply HQ; eauto.
      * apply (Hc Hc0); auto.
Qed.
End MatcherSound.

Section MatcherComplete.
Variable R : Type.

Lemma star_loop_complete (g : bool) (r : regex) step :
  complete_at R r step ->
  forall (k : cont R) pos a b,
    matches (Star g r) pos a b ->
    forall fuel c,
      List.length (a ++ b) <= fuel ->
      (forall c', k (pos + List.length a) b c' <> None) ->
      star_loop step g k fuel pos (a ++ b) c <> None.
Proof.
  intros Hstep k pos a b Hm.
  remember (Star g r) as sr eqn:Esr.
  induction Hm; try discriminate; inversion Esr; subst; clear Esr.
  - intros fuel c _ Hk. simpl in *. rewrite Nat.add_0_r in Hk.
    destruct fuel; simpl; [apply Hk|].
    destruct g.
    + destruct (step pos b c _); [discriminate | apply Hk].
    + destruct (k pos b c) eqn:E; [discriminate|]. elim (Hk c E).
  - intros fuel c Hlen Hk.
    destruct fuel as [|fuel].
    { rewrite !length_app in Hlen. destruct a1; [congruence | simpl in Hlen; lia]. }
    assert (Hagain :
              step pos ((a1 ++ a2) ++ b) c
                   (fun pos' s' c' =>
                      if Nat.ltb pos pos'
                      then star_loop step g k fuel pos' s' c' else None)
              <> None).
    { rewrite <- app_assoc. apply Hstep; auto.
      intros c'.
      assert (E : Nat.ltb pos (pos + List.length a1) = true).
      { apply Nat.ltb_lt. destruct a1; [congruence | simpl; lia]. }
      rewrite E. apply IHHm2; auto.
      - rewrite !length_app in *. destruct a1; [congruence | simpl in *; lia].
      - intros c''. rewrite <- Nat.add_assoc, <- length_app. apply Hk. }
    simpl. destruct g.
    + destruct (step pos ((a1 ++ a2) ++ b) c _); [discriminate | congruence].
    + destruct (k pos ((a1 ++ a2) ++ b) c); [discriminate | exact Hagain].
Qed.

Lemma run_complete (r : regex) : complete_at R r (run (R:=R) r).
Proof.
  induction r; intros pos a b c k Hm Hk; simpl.
  - inversion Hm; subst. simpl in *. rewrite Nat.add_0_r in Hk. apply Hk.
  - inversion Hm; subst. simpl in *. apply Hk.
  - inversion Hm; subst; simpl in *; rewrite Nat.add_0_r in Hk.
    + apply Hk.
    + unfold NL at 1. simpl. apply Hk.
  - inversion Hm; subst. simpl.
    match goal with H : p _ = true |- _ => rewrite H end.
    replace (S pos) with (pos + List.length [x]) by (simpl; lia). apply Hk.
  - inversion Hm; subst. rewrite <- app_assoc.
    apply IHr1; auto. intros c'. apply IHr2; auto.
    intros c''. rewrite <- Nat.add_assoc, <- length_app. apply Hk.
  - inversion Hm; subst.
    + match goal with H : matches r1 _ _ _ |- _ =>
        specialize (IHr1 pos a b c k H Hk) end.
      destruct (run r1 pos (a ++ b) c k); [discriminate | congruence].
    + destruct (run r1 pos (a ++ b) c k); [discriminate|].
      apply IHr2; auto.
  - apply (@star_loop_complete greedy r _ IHr); auto.
  - inversion Hm; subst. apply IHr; auto.
Qed.
End MatcherComplete.

(** ** The table walk *)

Import RapidoDevisParser.

Lemma row_body_classify (r : row) (loc : locals) (self : data) :
  row_body r loc self = apply_kind (classify r) loc self.
Proof.
  unfold row_body, classify, skipped_row, row_line.
  destruct r as [|[cell0|] r']; try reflexivity.
  destruct cell0 as [|x cell0]; try reflexivity.
  set (line := strip (x :: cell0)).
  destruct (contains (py "DÉSIGNATION") line || is_empty line); try reflexivity.
  destruct (re_match piece_re line) as [m|].
  { destruct (Num.float (group m 3)) as [v|e]; reflexivity. }
  destruct (re_match cat_re line) as [m|]; try reflexivity.
  destruct (re_match ligne_re line) as [m|]; try reflexivity.
  unfold ligne_of_match.
  destruct (Num.float (comma_to_dot (group m 3))); try reflexivity.
  destruct (Num.float (comma_to_dot (group m 5))); try reflexivity.
  destruct (Num.float (group m 6)); try reflexivity.
  destruct (Num.float (comma_to_dot (group m 7))); reflexivity.
Qed.

(** The walk of some rows, as a fold of [apply_kind]. *)
Lemma rows_loop_app (pre post : list row) (loc : locals) (self : data) :
  rows_loop (pre ++ post) loc self =
  bind (rows_loop pre loc self)
       (fun st => rows_loop post (fst st) (snd st)).
Proof.
  revert loc self. induction pre as [|r pre IH]; intros; simpl.
  - reflexivity.
  - destruct (row_body r loc self) as [[loc1 self1]|e]; simpl; auto.
Qed.


Lemma emitted_app (pre post : list row) cp cat :
  emitted (pre ++ post) cp cat =
  emitted pre cp cat
  ++ emitted post (last_piece pre cp) (last_category pre cat).
Proof.
  revert cp cat. induction pre as [|r pre IH]; intros; simpl.
  - reflexivity.
  - unfold last_piece, last_category. simpl.
    destruct (classify r); simpl; rewrite ?IH; reflexivity.
Qed.

Lemma length_emitted (rows : list row) cp cat :
  List.length (emitted rows cp cat) = List.length (filter is_ligne rows).
Proof.
  revert cp cat. induction rows as [|r rows IH]; intros; simpl; auto.
  unfold is_ligne at 1. destruct (classify r); simpl; auto.
Qed.

Lemma last_piece_app pre post cp :
  last_piece (pre ++ post) cp = last_piece post (last_piece pre cp).
Proof. unfold last_piece. apply fold_left_app. Qed.

Lemma last_category_app pre post cat :
  last_category (pre ++ post) cat = last_category post (last_category pre cat).
Proof. unfold last_category. apply fold_left_app. Qed.

Lemma piece_headers_app pre post :
  piece_headers (pre ++ post) = piece_headers pre ++ piece_headers post.
Proof. unfold piece_headers. apply flat_map_app. Qed.

Lemma convertible_cons r rows :
  convertible (r :: rows) <->
  (forall e, classify r <> RError e) /\ convertible rows.
Proof.
  unfold convertible; split.
  - intros H; split; intros; apply H; simpl; auto.
  - intros [H1 H2] r' e [<-|Hin]; auto.
Qed.

Lemma convertible_app pre post :
  convertible (pre ++ post) <-> convertible pre /\ convertible post.
Proof.
  unfold convertible; split.
  - intros H; split; intros; apply H; apply in_or_app; auto.
  - intros [H1 H2] r e Hin. apply in_app_or in Hin. destruct Hin; auto.
Qed.

(** What a walk that returns has done: the line items and the sub-areas
    it appended, the locals it ends with; nothing else of [self.data]
    changed, and no row had numbers that [float] refuses. *)
Lemma rows_loop_ok (rows : list row) :
  forall loc self loc' self',
    rows_loop rows loc self = Ok (loc', self') ->
    d_lignes self' =
      d_lignes self
      ++ emitted rows (current_piece loc) (current_category loc)
    /\ d_pieces self' = fold_left add_piece (piece_headers rows) (d_pieces self)
    /\ current_piece loc' = last_piece rows (current_piece loc)
    /\ current_category loc' = last_category rows (current_category loc)
    /\ convertible rows
    /\ d_metadata self' = d_metadata self
    /\ d_client self' = d_client self
    /\ d_chantier self' = d_chantier self
    /\ d_montants self' = d_montants self
    /\ d_pdf_info self' = d_pdf_info self.
Proof.
  induction rows as [|r rows IH]; intros loc self loc' self' H; simpl in H.
  - inversion H; subst. simpl. rewrite app_nil_r.
    repeat split; auto. intros r e [].
  - rewrite row_body_classify in H.
    unfold last_piece, last_category, piece_headers. simpl.
    fold (piece_headers rows).
    rewrite convertible_cons.
    destruct (classify r) as [|p|phrase|fs| |e] eqn:Ek; simpl in H;
      try discriminate;
      apply IH in H; simpl in H;
      destruct H as (Hl & Hp & Hcp & Hcat & Hconv & Hm & Hc & Hch & Hmt & Hpi).
    + repeat split; auto; discriminate.
    + assert (Hd : forall A (f : data -> A),
                 (forall d ps, f (set_pieces d ps) = f d) ->
                 f (if existsb (fun q => str_eqb (p_numero q) (p_numero p))
                               (d_pieces self)
                    then self else set_pieces self (d_pieces self ++ [p]))
                 = f self).
      { intros A f Hf. destruct (existsb _ _); auto. }
      rewrite (Hd _ d_lignes) in Hl by reflexivity.
      rewrite (Hd _ d_metadata) in Hm by reflexivity.
      rewrite (Hd _ d_client) in Hc by reflexivity.
      rewrite (Hd _ d_chantier) in Hch by reflexivity.
      rewrite (Hd _ d_montants) in Hmt by reflexivity.
      rewrite (Hd _ d_pdf_info) in Hpi by reflexivity.
      repeat split; auto; try discriminate.
      rewrite Hp. simpl. f_equal. unfold add_piece.
      destruct (existsb _ (d_pieces self)); reflexivity.
    + repeat split; auto; discriminate.
    + repeat split; auto; try discriminate.
      rewrite Hl. simpl. rewrite <- app_assoc. reflexivity.
    + repeat split; auto; discriminate.
Qed.

(** A walk returns when every row converts. *)
Lemma rows_loop_total (rows : list row) :
  forall loc self,
    convertible rows ->
    exists loc' self', rows_loop rows loc self = Ok (loc', self').
Proof.
  induction rows as [|r rows IH]; intros loc self Hc; simpl.
  - eauto.
  - apply convertible_cons in Hc. destruct Hc as [Hr Hc].
    rewrite row_body_classify.
    destruct (classify r) as [|p|phrase|fs| |e]; simpl; auto.
    elim (Hr e). reflexivity.
Qed.

(** It raises at the first row that does not convert. *)
Lemma rows_loop_raise (pre post : list row) r e :
  forall loc self,
    convertible pre -> classify r = RError e ->
    rows_loop (pre ++ r :: post) loc self = Raise e.
Proof.
  intros loc self Hc Hr. rewrite rows_loop_app.
  destruct (rows_loop_total loc self Hc) as (loc1 & self1 & ->).
  simpl. rewrite row_body_classify, Hr. reflexivity.
Qed.

(** ** Tables and pages *)

Lemma parse_table_short (t : table) (self : data) :
  List.length t < 2 -> _parse_table t self = Ok self.
Proof.
  intros H. unfold _parse_table.
  destruct t as [|r1 [|r2 t]]; simpl in *; auto. lia.
Qed.

Lemma parse_table_long (t : table) (self : data) :
  2 <= List.length t ->
  _parse_table t self =
  bind (rows_loop t (Locals None None) self) (fun st => Ok (snd st)).
Proof.
  intros H. unfold _parse_table.
  destruct t as [|r1 [|r2 t]]; simpl in *; try lia. reflexivity.
Qed.

Lemma read_rows_one (t : table) :
  read_rows [t] = if Nat.leb 2 (List.length t) then t else [].
Proof. unfold read_rows. cbn [flat_map]. apply app_nil_r. Qed.

Lemma parse_table_ok (t : table) (self self' : data) :
  _parse_table t self = Ok self' ->
  d_lignes self' = d_lignes self ++ table_lignes t
  /\ d_pieces self' = fold_left add_piece (piece_headers (read_rows [t]))
                                (d_pieces self)
  /\ convertible (read_rows [t])
  /\ same_header self' self.
Proof.
  intros H. rewrite read_rows_one. unfold table_lignes.
  destruct (Nat.leb 2 (List.length t)) eqn:E.
  - apply Nat.leb_le in E. rewrite parse_table_long in H by auto.
    destruct (rows_loop t (Locals None None) self) as [[loc' s']|e] eqn:Er;
      simpl in H; inversion H; subst.
    apply rows_loop_ok in Er. simpl in Er. unfold same_header.
    destruct Er as (H1 & H2 & _ & _ & H5 & H6 & H7 & H8 & H9 & H10).
    repeat split; auto.
  - apply Nat.leb_gt in E. rewrite parse_table_short in H by auto.
    inversion H; subst. simpl. rewrite app_nil_r.
    unfold same_header. repeat split; auto. intros r e [].
Qed.

Lemma parse_table_total (t : table) (self : data) :
  convertible (read_rows [t]) -> exists self', _parse_table t self = Ok self'.
Proof.
  rewrite read_rows_one. intros Hc.
  destruct (Nat.leb 2 (List.length t)) eqn:E.
  - apply Nat.leb_le in E. rewrite parse_table_long by auto.
    destruct (rows_loop_total (Locals None None) self Hc) as (l & s & ->).
    simpl. eauto.
  - apply Nat.leb_gt in E. rewrite parse_table_short by auto. eauto.
Qed.

Lemma read_rows_cons t ts : read_rows (t :: ts) = read_rows [t] ++ read_rows ts.
Proof. rewrite read_rows_one. reflexivity. Qed.

Lemma parse_tables_ok (ts : list table) :
  forall self self',
    parse_tables ts self = Ok self' ->
    d_lignes self' = d_lignes self ++ flat_map table_lignes ts
    /\ d_pieces self' = fold_left add_piece (piece_headers (read_rows ts))
                                  (d_pieces self)
    /\ convertible (read_rows ts)
    /\ same_header self' self.
Proof.
  induction ts as [|t ts IH]; intros self self' H; simpl in H.
  - inversion H; subst. simpl. rewrite app_nil_r. unfold same_header.
    repeat split; auto. intros r e [].
  - destruct (_parse_table t self) as [s1|e] eqn:E1; simpl in H; try discriminate.
    apply parse_table_ok in E1. destruct E1 as (Hl1 & Hp1 & Hc1 & Hh1).
    apply IH in H. destruct H as (Hl & Hp & Hc & Hh).
    rewrite read_rows_cons, piece_headers_app, fold_left_app, convertible_app.
    simpl. rewrite Hl, Hl1, Hp, Hp1, <- app_assoc.
    unfold same_header in *. intuition congruence.
Qed.


Lemma parse_tables_app (ts1 ts2 : list table) (self : data) :
  parse_tables (ts1 ++ ts2) self =
  bind (parse_tables ts1 self) (parse_tables ts2).
Proof.
  revert self. induction ts1 as [|t ts1 IH]; intros; simpl; auto.
  destruct (_parse_table t self); simpl; auto.
Qed.

(** The two nested loops of [parse] read the tables of the document in
    page order. *)
Lemma parse_pages_tables (pages : list page) (self : data) :
  parse_pages pages self = parse_tables (document_tables pages) self.
Proof.
  revert self. induction pages as [|p ps IH]; intros; simpl; auto.
  unfold document_tables. simpl. rewrite parse_tables_app.
  destruct (parse_tables (page_tables p) self); simpl; auto.
Qed.

(** ** Sub-areas are kept once *)

Lemma str_eqb_eq (a b : str) : str_eqb a b = true <-> a = b.
Proof.
  unfold str_eqb. destruct (list_eq_dec N.eq_dec a b); split; congruence.
Qed.

Lemma str_eqb_refl (a : str) : str_eqb a a = true.
Proof. apply str_eqb_eq. reflexivity. Qed.

Lemma NoDup_snoc {A : Type} (l : list A) (x : A) :
  NoDup l -> ~ In x l -> NoDup (l ++ [x]).
Proof.
  induction l as [|a l IH]; intros Hnd Hx; simpl.
  - constructor; [intros [] | constructor].
  - inversion Hnd; subst. constructor.
    + intros Hin. apply in_app_or in Hin. destruct Hin as [Hin|[->|[]]]; auto.
      apply Hx. left. reflexivity.
    + apply IH; auto. intros Hin. apply Hx. right. exact Hin.
Qed.

Lemma NoDup_map_inj_in {A B : Type} (f : A -> B) (l : list A) (a b : A) :
  NoDup (map f l) -> In a l -> In b l -> f a = f b -> a = b.
Proof.
  induction l as [|x l IH]; intros Hnd Ha Hb Hf; simpl in *; [contradiction|].
  inversion Hnd as [|? ? Hnot Hnd']; subst.
  destruct Ha as [->|Ha], Hb as [->|Hb]; auto.
  - elim Hnot. rewrite Hf. apply in_map. exact Hb.
  - elim Hnot. rewrite <- Hf. apply in_map. exact Ha.
Qed.

Lemma existsb_numero (ps : list piece) (n : str) :
  existsb (fun q => str_eqb (p_numero q) n) ps = true
  <-> In n (map p_numero ps).
Proof.
  rewrite existsb_exists, in_map_iff. split.
  - intros (q & Hin & He). apply str_eqb_eq in He. eauto.
  - intros (q & He & Hin). exists q. split; auto. apply str_eqb_eq. exact He.
Qed.

Lemma in_add_piece (ps : list piece) (p q : piece) :
  In q (add_piece ps p) -> In q ps \/ q = p.
Proof.
  unfold add_piece. destruct (existsb _ ps); auto.
  intros H. apply in_app_or in H. destruct H as [H|[H|[]]]; auto.
Qed.

Lemma NoDup_add_piece (ps : list piece) (p : piece) :
  NoDup (map p_numero ps) -> NoDup (map p_numero (add_piece ps p)).
Proof.
  intros H. unfold add_piece.
  destruct (existsb _ ps) eqn:E; auto.
  rewrite map_app. simpl. apply NoDup_snoc; auto.
  intros Hin. apply existsb_numero in Hin. congruence.
Qed.

Lemma NoDup_fold_add_piece (hs ps : list piece) :
  NoDup (map p_numero ps) ->
  NoDup (map p_numero (fold_left add_piece hs ps)).
Proof.
  revert ps. induction hs as [|h hs IH]; intros ps H; simpl; auto.
  apply IH, NoDup_add_piece, H.
Qed.

Lemma in_fold_add_piece (hs ps : list piece) (q : piece) :
  In q (fold_left add_piece hs ps) -> In q ps \/ In q hs.
Proof.
  revert ps. induction hs as [|h hs IH]; intros ps H; simpl in *; auto.
  apply IH in H. destruct H as [H|H]; auto.
  apply in_add_piece in H. destruct H as [H| ->]; auto.
Qed.

Lemma with_numero_app (n : str) (l1 l2 : list piece) :
  with_numero n (l1 ++ l2) =
  match with_numero n l1 with
  | Some q => Some q
  | None => with_numero n l2
  end.
Proof.
  unfold with_numero. induction l1 as [|a l1 IH]; simpl; auto.
  destruct (str_eqb (p_numero a) n); auto.
Qed.

Lemma with_numero_none (n : str) (ps : list piece) :
  with_numero n ps = None <-> ~ In n (map p_numero ps).
Proof.
  unfold with_numero. induction ps as [|a ps IH]; simpl.
  - tauto.
  - destruct (str_eqb (p_numero a) n) eqn:E.
    + apply str_eqb_eq in E. split; [discriminate | tauto].
    + rewrite IH. split.
      * intros H [He|Hin]; auto.
        apply str_eqb_eq in He. congruence.
      * tauto.
Qed.

Lemma with_numero_some (n : str) (ps : list piece) (q : piece) :
  with_numero n ps = Some q -> In q ps /\ p_numero q = n.
Proof.
  unfold with_numero. intros H. apply find_some in H.
  destruct H as [H1 H2]. apply str_eqb_eq in H2. auto.
Qed.

Lemma with_numero_add (n : str) (ps : list piece) (p : piece) :
  with_numero n (add_piece ps p) =
  match with_numero n ps with
  | Some q => Some q
  | None => if str_eqb (p_numero p) n then Some p else None
  end.
Proof.
  unfold add_piece. destruct (existsb _ ps) eqn:E.
  - destruct (with_numero n ps) eqn:W; auto.
    destruct (str_eqb (p_numero p) n) eqn:En; auto.
    apply str_eqb_eq in En. subst n.
    apply with_numero_none in W. apply existsb_numero in E. contradiction.
  - rewrite with_numero_app. destruct (with_numero n ps); auto.
Qed.

(** The sub-area kept under a number is the first one declared with it. *)
Lemma with_numero_fold (n : str) (hs ps : list piece) :
  with_numero n (fold_left add_piece hs ps) =
  match with_numero n ps with
  | Some q => Some q
  | None => with_numero n hs
  end.
Proof.
  revert ps. induction hs as [|h hs IH]; intros ps; simpl.
  - destruct (with_numero n ps); auto.
  - rewrite IH, with_numero_add.
    destruct (with_numero n ps); auto.
    unfold with_numero at 2. simpl.
    destruct (str_eqb (p_numero h) n); auto.
Qed.

(** ** What a [parse] that returns went through *)

Lemma parse_ok (f : pdf_file) (d : data) :
  parse f = Ok d ->
  exists first rest md content self1 mt,
    pdf_pages f = Ok (first :: rest)
    /\ _extract_metadata (page_text first) = Ok md
    /\ pdf_bytes f = Ok content
    /\ parse_tables
         (document_tables (first :: rest))
         (Data md (_extract_client_info (page_text first))
               (_extract_chantier_info (page_text first)) [] []
               empty_montants (PdfInfo (pdf_path f) (hash_bytes content)))
       = Ok self1
    /\ _extract_montants self1 (page_text (last (first :: rest) first))
       = Ok mt
    /\ d = set_montants self1 mt.
Proof.
  unfold parse. intros H.
  destruct (pdf_pages f) as [[|first rest]|e] eqn:Ep;
    cbv beta iota delta [bind] in H; try discriminate.
  destruct (_extract_metadata (page_text first)) as [md|e] eqn:Em;
    cbv beta iota delta [bind] in H; try discriminate.
  unfold _calculate_pdf_hash in H.
  destruct (pdf_bytes f) as [content|e] eqn:Eb;
    cbv beta iota delta [bind] in H; try discriminate.
  rewrite parse_pages_tables in H.
  match type of H with
  | match ?x with _ => _ end = _ => destruct x as [self1|e] eqn:Et
  end; try discriminate.
  match type of H with
  | match ?x with _ => _ end = _ => destruct x as [mt|e] eqn:Emt
  end; try discriminate.
  inversion H; subst.
  exists first, rest, md, content, self1, mt. repeat split; auto.
Qed.

(** ** Claims on the table walk *)

Lemma read_rows_all (ts : list table) :
  (forall t, In t ts -> 2 <= List.length t) ->
  read_rows ts = List.concat ts.
Proof.
  induction ts as [|t ts IH]; intros H; [reflexivity|].
  rewrite read_rows_cons, read_rows_one, IH
    by (intros; apply H; right; assumption).
  assert (Ht : 2 <= List.length t) by (apply H; left; reflexivity).
  apply Nat.leb_le in Ht. rewrite Ht. reflexivity.
Qed.

Lemma in_read_rows (ts : list table) (r : row) :
  In r (read_rows ts) <->
  exists t, In t ts /\ 2 <= List.length t /\ In r t.
Proof.
  unfold read_rows. rewrite in_flat_map. split.
  - intros (t & Hin & Hr). exists t.
    destruct (Nat.leb 2 (List.length t)) eqn:E; [|contradiction].
    apply Nat.leb_le in E. auto.
  - intros (t & Hin & Hl & Hr). exists t. split; auto.
    apply Nat.leb_le in Hl. rewrite Hl. exact Hr.
Qed.

(** C3, as the code has it.  In a document that [parse] returns, the
    sub-areas have pairwise distinct numbers; each of them is a sub-area
    header among the rows read, those of the tables of two rows or more;
    and for every such header, exactly one sub-area of the output has
    its number: the first header read with that number, whose name and
    area it keeps.  A row is read exactly when it stands in a table of
    two rows or more; when every table of the document has two rows or
    more, the rows read are all the rows of the document. *)
Theorem C3_subarea_ids_unique (f : pdf_file) (d : data) :
  parse f = Ok d ->
  exists pages,
    pdf_pages f = Ok pages
    /\ NoDup (map p_numero (d_pieces d))
    /\ (forall q, In q (d_pieces d) ->
                  In q (piece_headers (read_rows (document_tables pages))))
    /\ (forall h,
           In h (piece_headers (read_rows (document_tables pages))) ->
           exists q,
             with_numero (p_numero h)
                         (piece_headers (read_rows (document_tables pages)))
             = Some q
             /\ In q (d_pieces d)
             /\ (forall q', In q' (d_pieces d) ->
                            p_numero q' = p_numero h -> q' = q))
    /\ (forall r,
           In r (read_rows (document_tables pages)) <->
           exists t, In t (document_tables pages)
                     /\ 2 <= List.length t /\ In r t)
    /\ ((forall t, In t (document_tables pages) -> 2 <= List.length t) ->
        read_rows (document_tables pages)
        = List.concat (document_tables pages)).
Proof.
  intros H. apply parse_ok in H.
  destruct H as (first & rest & md & content & self1 & mt
                 & Hp & _ & _ & Ht & _ & ->).
  exists (first :: rest). split; auto.
  apply parse_tables_ok in Ht. destruct Ht as (_ & Hpieces & _ & _).
  simpl in Hpieces. simpl d_pieces. rewrite Hpieces.
  set (hs := piece_headers (read_rows (document_tables (first :: rest)))).
  assert (Hnd : NoDup (map p_numero (fold_left add_piece hs []))).
  { apply NoDup_fold_add_piece. constructor. }
  split; [exact Hnd|]. split; [|split; [|split]].
  - intros q Hq. apply in_fold_add_piece in Hq. destruct Hq as [[]|Hq]; auto.
  - intros h Hh.
    destruct (with_numero (p_numero h) hs) as [q|] eqn:W.
    + exists q. split; auto.
      assert (Hq : with_numero (p_numero h) (fold_left add_piece hs []) = Some q).
      { rewrite with_numero_fold. simpl. exact W. }
      apply with_numero_some in Hq. destruct Hq as [Hin Hn].
      split; auto. intros q' Hin' Hn'.
      apply (NoDup_map_inj_in p_numero _ q' q Hnd); auto. congruence.
    + apply with_numero_none in W. elim W. apply in_map. exact Hh.
  - intros r. apply in_read_rows.
  - apply read_rows_all.
Qed.

Lemma C3_subarea_ids_unique_witness :
  exists d,
    parse Ex.two_pages = Ok d
    /\ NoDup (map p_numero (d_pieces d))
    /\ map p_surface (d_pieces d) = [Qred 12.5%Q; Qred 20%Q].
Proof.
  eexists. split; [vm_compute; reflexivity|].
  split; [|vm_compute; reflexivity].
  match goal with
  | |- NoDup (map p_numero (d_pieces ?d)) =>
    destruct (@C3_subarea_ids_unique Ex.two_pages d) as (pages & _ & Hnd & _)
  end; [vm_compute; reflexivity | exact Hnd].
Defined.

(** C3 as the spec states it fails for the headers of tables of one
    row, which the walk leaves unread: when the sub-area 1 is declared
    with area 12.5 alone in its table and then with area 13 in a table
    of two rows, the sub-area that comes out has area 13, the second
    occurrence; and when both declarations stand alone in their tables,
    no sub-area comes out at all. *)
Lemma C3_counterexample :
  classify Ex.header_cuisine
  = RPiece (Piece (py "1") (py "Cuisine") (Qred 12.5%Q))
  /\ classify Ex.header_cuisine_bis
     = RPiece (Piece (py "1") (py "Cuisine") (Qred 13%Q))
  /\ (exists d,
         parse Ex.late_header = Ok d
         /\ d_pieces d = [Piece (py "1") (py "Cuisine") (Qred 13%Q)])
  /\ (exists d, parse Ex.lone_headers = Ok d /\ d_pieces d = []).
Proof.
  split; [vm_compute; reflexivity|].
  split; [vm_compute; reflexivity|].
  split; eexists; split; vm_compute; reflexivity.
Qed.

(** C1, as the code has it.  The lines that a walk of the tables appends
    are those of each table taken alone, in order.  In a table that is
    read, a priced row yields a line item that carries the category and
    the sub-area of the last category header and of the last sub-area
    header before it in the same table, and none when that table has no
    such header before it.  Within a table the category in force after
    a category header stays until the next one. *)
Theorem C1_state_is_per_table (tables : list table) (self self' : data) :
  parse_tables tables self = Ok self' ->
  d_lignes self' = d_lignes self ++ flat_map table_lignes tables
  /\ (forall t pre r post fs,
         In t tables -> t = pre ++ r :: post -> 2 <= List.length t ->
         classify r = RLigne fs ->
         table_lignes t =
         emitted pre None None
         ++ mk_ligne fs (last_piece pre None) (last_category pre None)
         :: emitted post (last_piece pre None) (last_category pre None))
  /\ (forall pre h mid phrase init,
         classify h = RCategory phrase ->
         (forall r p, In r mid -> classify r <> RCategory p) ->
         last_category (pre ++ h :: mid) init = Some phrase)
  /\ (forall pre h mid p init,
         classify h = RPiece p ->
         (forall r q, In r mid -> classify r <> RPiece q) ->
         last_piece (pre ++ h :: mid) init = Some p).
Proof.
  intros H. apply parse_tables_ok in H. destruct H as (Hl & _).
  split; [exact Hl|]. split; [|split].
  - intros t pre r post fs _ -> Hlen Hr.
    unfold table_lignes.
    apply Nat.leb_le in Hlen. rewrite Hlen.
    rewrite emitted_app. simpl. rewrite Hr. reflexivity.
  - intros pre h mid phrase init Hh Hmid.
    rewrite last_category_app. unfold last_category at 1. simpl.
    rewrite Hh. fold (last_category mid (Some phrase)).
    clear Hh. induction mid as [|r mid IH]; simpl; auto.
    unfold last_category. simpl.
    destruct (classify r) eqn:E;
      try (apply IH; intros; apply Hmid; right; assumption).
    elim (Hmid r phrase0); [left; reflexivity | exact E].
  - intros pre h mid p init Hh Hmid.
    rewrite last_piece_app. unfold last_piece at 1. simpl.
    rewrite Hh. fold (last_piece mid (Some p)).
    clear Hh. induction mid as [|r mid IH]; simpl; auto.
    unfold last_piece. simpl.
    destruct (classify r) eqn:E;
      try (apply IH; intros; apply Hmid; right; assumption).
    elim (Hmid r p0); [left; reflexivity | exact E].
Qed.

Lemma C1_state_is_per_table_witness :
  exists d,
    parse_tables [Ex.one_table] blank = Ok d
    /\ map l_categorie (d_lignes d)
       = [Some (py "Revêtements"); Some (py "Revêtements")].
Proof.
  eexists. split; [vm_compute; reflexivity|].
  match goal with
  | |- map l_categorie (d_lignes ?d) = _ =>
    destruct (@C1_state_is_per_table [Ex.one_table] blank d) as (Hl & _)
  end; [vm_compute; reflexivity|].
  rewrite Hl. vm_compute. reflexivity.
Defined.

(** C1 as the spec states it fails: a category header and a sub-area
    header in one table, priced rows in the next table of the same
    document; the line items carry neither. *)
Lemma C1_counterexample :
  exists d,
    parse_tables Ex.split_tables blank = Ok d
    /\ map l_categorie (d_lignes d) = [None; None]
    /\ map l_piece (d_lignes d) = [None; None]
    /\ classify Ex.category_row = RCategory (py "Revêtements").
Proof.
  eexists. split; [vm_compute; reflexivity|].
  repeat split; vm_compute; reflexivity.
Qed.

Lemma classify_skip (r : row) : classify r = RSkip <-> skipped_row r = true.
Proof.
  unfold classify. destruct (skipped_row r); split; auto; try discriminate.
  destruct (re_match piece_re (row_line r)) as [m|].
  { destruct (Num.float (group m 3)); discriminate. }
  destruct (re_match cat_re (row_line r)); try discriminate.
  destruct (re_match ligne_re (row_line r)) as [m|]; try discriminate.
  destruct (ligne_of_match m); discriminate.
Qed.

Lemma skipped_row_iff (r : row) :
  skipped_row r = true <->
  r = [] \/ hd_error r = Some None
  \/ exists c rest,
      r = Some c :: rest
      /\ (strip c = [] \/ contains (py "DÉSIGNATION") (strip c) = true).
Proof.
  destruct r as [|[c|] rest]; simpl.
  - tauto.
  - destruct c as [|x c].
    + split; auto. intros _. right. right. exists [], rest. auto.
    + rewrite orb_true_iff. split.
      * intros [H|H]; right; right; exists (x :: c), rest; split; auto.
        left. destruct (strip (x :: c)); [reflexivity | discriminate].
      * intros [H|[H|(c' & rest' & He & H)]]; try discriminate.
        inversion He; subst.
        destruct H as [H|H]; [right; rewrite H; reflexivity | left; exact H].
  - split; auto.
Qed.

Lemma header_registered (hs ps : list piece) (p : piece) :
  In p hs -> In (p_numero p) (map p_numero (fold_left add_piece hs ps)).
Proof.
  intros Hin.
  destruct (with_numero (p_numero p) (fold_left add_piece hs ps)) as [q|] eqn:W.
  - apply with_numero_some in W. destruct W as [Hq Hn].
    rewrite <- Hn. apply in_map. exact Hq.
  - rewrite with_numero_fold in W.
    destruct (with_numero (p_numero p) ps); try discriminate.
    apply with_numero_none in W. elim W. apply in_map. exact Hin.
Qed.

Lemma in_piece_headers (rows : list row) (r : row) (p : piece) :
  In r rows -> classify r = RPiece p -> In p (piece_headers rows).
Proof.
  intros Hin Hr. unfold piece_headers. apply in_flat_map.
  exists r. split; auto. rewrite Hr. left. reflexivity.
Qed.

(** C4, as the code has it.  A table of fewer than two rows is left
    unread.  In a table of two rows or more every row is read: when the
    call returns, each priced row has given one line item and each
    sub-area header row has its number among the sub-areas; the call
    returns as soon as [float] accepts the numbers of every row.  A row
    is passed over exactly when it is empty, when its first cell is
    [None], or when its first cell, stripped, is empty or contains the
    word DÉSIGNATION. *)
Theorem C4_rows_read (t : table) (self : data) :
  (List.length t < 2 -> _parse_table t self = Ok self)
  /\ (2 <= List.length t ->
      forall self', _parse_table t self = Ok self' ->
        List.length (d_lignes self')
        = List.length (d_lignes self) + List.length (filter is_ligne t)
        /\ (forall r p, In r t -> classify r = RPiece p ->
                        In (p_numero p) (map p_numero (d_pieces self'))))
  /\ (2 <= List.length t -> convertible t ->
      exists self', _parse_table t self = Ok self')
  /\ (forall r, classify r = RSkip <-> skipped_row r = true)
  /\ (forall r,
         skipped_row r = true <->
         r = [] \/ hd_error r = Some None
         \/ exists c rest,
             r = Some c :: rest
             /\ (strip c = []
                 \/ contains (py "DÉSIGNATION") (strip c) = true)).
Proof.
  split; [apply parse_table_short|].
  split; [|split; [|split; [apply classify_skip | apply skipped_row_iff]]].
  - intros Hlen self' H. apply parse_table_ok in H.
    destruct H as (Hl & Hp & _ & _).
    rewrite read_rows_one in Hp. unfold table_lignes in Hl.
    apply Nat.leb_le in Hlen. rewrite Hlen in *.
    split.
    + rewrite Hl, length_app, length_emitted. reflexivity.
    + intros r p Hin Hr. rewrite Hp. apply header_registered.
      eapply in_piece_headers; eauto.
  - intros Hlen Hc. apply parse_table_total.
    rewrite read_rows_one. apply Nat.leb_le in Hlen. rewrite Hlen. exact Hc.
Qed.

Lemma C4_rows_read_witness :
  exists d,
    _parse_table Ex.one_table blank = Ok d
    /\ List.length (d_lignes d) = 2.
Proof.
  eexists. split; [vm_compute; reflexivity|].
  match goal with
  | |- List.length (d_lignes ?d) = _ =>
    destruct (C4_rows_read Ex.one_table blank) as (_ & H & _);
    destruct (H ltac:(vm_compute; lia) d) as (Hn & _)
  end; [vm_compute; reflexivity|].
  rewrite Hn. vm_compute. reflexivity.
Defined.

(** C4 as the spec states it fails: a table whose only row is a
    sub-area header is left unread, in [_parse_table] and so in
    [parse]: no sub-area comes out. *)
Lemma C4_counterexample :
  classify Ex.header_cuisine = RPiece (Piece (py "1") (py "Cuisine") (Qred 12.5%Q))
  /\ _parse_table [Ex.header_cuisine] blank = Ok blank
  /\ exists d,
      parse (Ex.file_of [Page [] [[Ex.header_cuisine]]]) = Ok d
      /\ d_pieces d = [].
Proof.
  split; [vm_compute; reflexivity|].
  split; [vm_compute; reflexivity|].
  eexists. split; vm_compute; reflexivity.
Qed.

(** ** Alphabets of matches and of groups *)

Lemma matches_all_chr (P : codepoint -> bool) (r : regex) pos a b :
  matches r pos a b -> all_chr P r -> forallb P a = true.
Proof.
  induction 1; simpl; intros HP; auto.
  - rewrite (HP x H). reflexivity.
  - destruct HP as [H1 H2]. rewrite forallb_app, IHmatches1, IHmatches2; auto.
  - apply IHmatches. tauto.
  - apply IHmatches. tauto.
  - rewrite forallb_app, IHmatches1, IHmatches2; auto.
Qed.

Lemma match_at_sound (Q : nat -> str -> Prop) (r : regex) pos s m :
  groups_ok Q r ->
  match_at r pos s = Some m ->
  exists a,
    s = a ++ m_rest m /\ matches r pos a (m_rest m)
    /\ m_start m = pos /\ m_end m = pos + List.length a
    /\ caps_ok Q (m_caps m).
Proof.
  intros Hg H. unfold match_at in H.
  pose proof (@run_sound match_obj Q r Hg) as Hs. apply Hs in H.
  destruct H as (a & b & c' & -> & Hm & Hk & Hc).
  inversion Hk; subst. simpl. exists a. repeat split; auto.
  apply Hc. intros i v [].
Qed.

Lemma lookup_in (i : nat) (c : captures) (v : str) :
  lookup i c = Some v -> In (i, v) c.
Proof.
  induction c as [|[j w] c IH]; simpl; try discriminate.
  destruct (Nat.eqb i j) eqn:E.
  - apply Nat.eqb_eq in E. intros H. inversion H; subst. auto.
  - auto.
Qed.

Lemma group_ok (Q : nat -> str -> Prop) (m : match_obj) (i : nat) :
  caps_ok Q (m_caps m) -> Q i [] -> Q i (group m i).
Proof.
  intros Hc H0. unfold group.
  destruct (lookup i (m_caps m)) as [v|] eqn:E; auto.
  apply Hc, lookup_in, E.
Qed.

Lemma search_from_sound (Q : nat -> str -> Prop) (r : regex) s :
  groups_ok Q r ->
  forall pos m,
    search_from r pos s = Some m ->
    exists pre a,
      s = pre ++ a ++ m_rest m
      /\ matches r (pos + List.length pre) a (m_rest m)
      /\ caps_ok Q (m_caps m).
Proof.
  intros Hg. induction s as [|x s IH]; intros pos m H; simpl in H.
  - destruct (match_at r pos []) eqn:E; try discriminate.
    inversion H; subst.
    apply (@match_at_sound Q _ _ _ _ Hg) in E.
    destruct E as (a & He & Hm & _ & _ & Hc).
    exists [], a. simpl. rewrite Nat.add_0_r. auto.
  - destruct (match_at r pos (x :: s)) eqn:E.
    + inversion H; subst.
      apply (@match_at_sound Q _ _ _ _ Hg) in E.
      destruct E as (a & He & Hm & _ & _ & Hc).
      exists [], a. simpl. rewrite Nat.add_0_r. auto.
    + apply IH in H. destruct H as (pre & a & -> & Hm & Hc).
      exists (x :: pre), a. simpl.
      replace (pos + S (List.length pre)) with (S pos + List.length pre) by lia.
      auto.
Qed.

Lemma search_from_complete (r : regex) pre a b :
  forall pos,
    matches r (pos + List.length pre) a b ->
    search_from r pos (pre ++ a ++ b) <> None.
Proof.
  induction pre as [|x pre IH]; intros pos Hm; simpl in *.
  - rewrite Nat.add_0_r in Hm.
    assert (Hc : match_at r pos (a ++ b) <> None).
    { unfold match_at. apply (@run_complete match_obj r); auto.
      intros; discriminate. }
    destruct (a ++ b); simpl;
      destruct (match_at r pos _); try discriminate; congruence.
  - destruct (match_at r pos (x :: pre ++ a ++ b)); try discriminate.
    apply IH. replace (S pos + List.length pre) with (pos + S (List.length pre)) by lia.
    exact Hm.
Qed.

(** Inclusion of one character class in an alphabet: a literal set is
    checked member by member, a named class by its own test. *)
Ltac in_set H :=
  unfold set in H; apply existsb_exists in H;
  let y := fresh "y" in
  let Hin := fresh "Hin" in
  let He := fresh "He" in
  destruct H as (y & Hin & He); apply N.eqb_eq in He; subst y;
  vm_compute in Hin;
  repeat (destruct Hin as [Hin|Hin]; [subst; reflexivity|]);
  contradiction.

Ltac in_alphabet :=
  let x := fresh "x" in
  let Hx := fresh "Hx" in
  intros x Hx;
  first
    [ solve [unfold num_char, not_nl, digit_or_space, amount_char;
             simpl; rewrite Hx; rewrite ?orb_true_r; reflexivity]
    | solve [exact Hx]
    | unfold cls in Hx; apply existsb_exists in Hx;
      let p := fresh "p" in
      let Hin := fresh "Hin" in
      let Hp := fresh "Hp" in
      destruct Hx as (p & Hin & Hp); simpl in Hin;
      repeat (destruct Hin as [Hin|Hin];
              [subst p;
               first [ solve [unfold num_char, not_nl, digit_or_space,
                              amount_char;
                              simpl; rewrite Hp; rewrite ?orb_true_r;
                              reflexivity]
                     | in_set Hp ] |]);
      contradiction ].

(** The groups of a priced line. *)
Lemma ligne_re_groups : groups_ok ligne_group ligne_re.
Proof.
  unfold ligne_re. cbn [seqs groups_ok].
  repeat split; auto; intros pos a b Hm; unfold ligne_group;
    (eapply matches_all_chr; [exact Hm|]);
    cbn [all_chr plus plus_lazy opt dot bs_d bs_s bs_w Re.chr];
    repeat split; try in_alphabet.
Qed.

(** ** Free text of a priced line *)

Lemma forallb_lstrip (P : codepoint -> bool) (s : str) :
  forallb P s = true -> forallb P (lstrip s) = true.
Proof.
  induction s as [|c s IH]; simpl; auto.
  intros H. destruct (isspace c); auto.
  apply andb_true_iff in H. tauto.
Qed.

Lemma forallb_rev' (P : codepoint -> bool) (s : str) :
  forallb P s = true -> forallb P (rev s) = true.
Proof.
  rewrite !forallb_forall. intros H x Hx. apply H, in_rev, Hx.
Qed.

Lemma forallb_strip (P : codepoint -> bool) (s : str) :
  forallb P s = true -> forallb P (strip s) = true.
Proof.
  intros H. unfold strip, rstrip.
  apply forallb_rev', forallb_lstrip, forallb_rev', forallb_lstrip, H.
Qed.

Lemma split_first_nosep (sep : codepoint) (s : str) :
  forallb (fun c => negb (c =? sep)%N) s = true -> split_first sep s = [s].
Proof.
  induction s as [|c s IH]; simpl; auto.
  intros H. apply andb_true_iff in H. destruct H as [H1 H2].
  apply negb_true_iff in H1. rewrite H1, (IH H2). reflexivity.
Qed.

(** The fields that a priced row converts to, from its match. *)
Lemma classify_ligne (r : row) (fs : ligne_fields) :
  classify r = RLigne fs ->
  exists m,
    re_match ligne_re (row_line r) = Some m /\ ligne_of_match m = Ok fs.
Proof.
  unfold classify. destruct (skipped_row r); try discriminate.
  destruct (re_match piece_re (row_line r)) as [m|].
  { destruct (Num.float (group m 3)); discriminate. }
  destruct (re_match cat_re (row_line r)); try discriminate.
  destruct (re_match ligne_re (row_line r)) as [m|]; try discriminate.
  destruct (ligne_of_match m) eqn:E; try discriminate.
  intros H. inversion H; subst. eauto.
Qed.

Lemma ligne_of_match_ok (m : match_obj) (fs : ligne_fields) :
  ligne_of_match m = Ok fs ->
  exists q pu tva tot,
    Num.float (comma_to_dot (group m 3)) = Ok q
    /\ Num.float (comma_to_dot (group m 5)) = Ok pu
    /\ Num.float (group m 6) = Ok tva
    /\ Num.float (comma_to_dot (group m 7)) = Ok tot
    /\ fs = LigneFields
              (group m 1)
              (strip (nth 0 (split_first NL (strip (group m 2))) []))
              (if Nat.ltb 1 (List.length (split_first NL (strip (group m 2))))
               then strip (nth 1 (split_first NL (strip (group m 2))) [])
               else [])
              q (group m 4) pu tva tot.
Proof.
  unfold ligne_of_match.
  destruct (Num.float (comma_to_dot (group m 3))) as [q|]; try discriminate.
  destruct (Num.float (comma_to_dot (group m 5))) as [pu|]; try discriminate.
  destruct (Num.float (group m 6)) as [tva|]; try discriminate.
  destruct (Num.float (comma_to_dot (group m 7))) as [tot|]; try discriminate.
  simpl. intros H. inversion H; subst.
  exists q, pu, tva, tot. repeat split; reflexivity.
Qed.

Lemma ligne_match_groups (line : str) (m : match_obj) :
  re_match ligne_re line = Some m ->
  forall i, ligne_group i (group m i).
Proof.
  intros H i. unfold re_match in H.
  apply (@match_at_sound ligne_group _ _ _ _ ligne_re_groups) in H.
  destruct H as (a & _ & _ & _ & _ & Hc).
  apply group_ok; auto.
  unfold ligne_group. do 8 (destruct i; auto).
Qed.

(** C5.  The code never fills the description: the free text that the
    priced-line pattern captures has no newline, so the cut at the first
    newline finds nothing to cut, every line item that comes out has an
    empty description, and its title has no newline either.  A row whose
    free text runs over two lines of the cell is not a priced line for
    the code: it matches none of the three patterns and no line item
    comes out of it. *)
Theorem C5_description_never_filled :
  (forall r fs,
      classify r = RLigne fs ->
      f_description fs = [] /\ forallb not_nl (f_designation fs) = true)
  /\ classify two_line_row = RNoise
  /\ (exists d,
         _parse_table [Ex.designation_row; two_line_row] blank = Ok d
         /\ d_lignes d = []).
Proof.
  split; [|split].
  - intros r fs H. apply classify_ligne in H. destruct H as (m & Hm & Hf).
    apply ligne_of_match_ok in Hf.
    destruct Hf as (q & pu & tva & tot & _ & _ & _ & _ & ->). simpl.
    pose proof (ligne_match_groups _ Hm 2) as H2. simpl in H2.
    apply forallb_strip in H2.
    rewrite (split_first_nosep NL _ H2). simpl.
    split; auto. apply forallb_strip, H2.
  - vm_compute. reflexivity.
  - eexists. split; vm_compute; reflexivity.
Qed.

Lemma C5_description_never_filled_witness :
  exists fs,
    classify Ex.ligne_row = RLigne fs
    /\ f_description fs = []
    /\ f_designation fs = py "Peinture murale".
Proof.
  eexists. split; [vm_compute; reflexivity|].
  split; [|vm_compute; reflexivity].
  destruct C5_description_never_filled as (H & _).
  match goal with
  | |- f_description ?fs = [] =>
    destruct (H Ex.ligne_row fs) as (Hd & _)
  end; [vm_compute; reflexivity | exact Hd].
Defined.

(** ** Conversion of amounts *)

Lemma isdigit_cases (c : codepoint) :
  isdigit c = true ->
  In c [48; 49; 50; 51; 52; 53; 54; 55; 56; 57]%N.
Proof.
  unfold isdigit, in_range. intros H.
  apply andb_true_iff in H. destruct H as [H1 H2].
  apply N.leb_le in H1. apply N.leb_le in H2. simpl.
  assert (c = 48 \/ c = 49 \/ c = 50 \/ c = 51 \/ c = 52 \/ c = 53
          \/ c = 54 \/ c = 55 \/ c = 56 \/ c = 57)%N by lia.
  intuition auto.
Qed.

Ltac digit_cases H :=
  apply isdigit_cases in H; simpl in H;
  repeat (destruct H as [H|H]; [subst; reflexivity|]); contradiction.

Lemma isdigit_not_space c : isdigit c = true -> isspace c = false.
Proof. intros H. digit_cases H. Qed.

Lemma isdigit_not_SP c : isdigit c = true -> (c =? SP)%N = false.
Proof. intros H. digit_cases H. Qed.

Lemma isdigit_not_comma c : isdigit c = true -> (c =? Num.COMMA)%N = false.
Proof. intros H. digit_cases H. Qed.

Lemma isdigit_not_dot c : isdigit c = true -> (c =? Num.DOT)%N = false.
Proof. intros H. digit_cases H. Qed.

Lemma num_char_not_space c : num_char c = true -> isspace c = false.
Proof.
  unfold num_char. intros H.
  apply orb_true_iff in H. destruct H as [H|H].
  - apply orb_true_iff in H. destruct H as [H|H].
    + apply isdigit_not_space, H.
    + apply N.eqb_eq in H. subst. reflexivity.
  - apply N.eqb_eq in H. subst. reflexivity.
Qed.

Lemma replace_app old new (a b : str) :
  replace old new (a ++ b) = replace old new a ++ replace old new b.
Proof. unfold replace. apply flat_map_app. Qed.

Lemma replace_absent old new (s : str) :
  forallb (fun c => negb (c =? old)%N) s = true -> replace old new s = s.
Proof.
  induction s as [|c s IH]; simpl; auto.
  intros H. apply andb_true_iff in H. destruct H as [H1 H2].
  apply negb_true_iff in H1. unfold replace in *. simpl.
  rewrite H1. simpl. rewrite IH; auto.
Qed.

Lemma forallb_impl {A : Type} (P Q : A -> bool) (l : list A) :
  (forall x, P x = true -> Q x = true) ->
  forallb P l = true -> forallb Q l = true.
Proof.
  intros HPQ. rewrite !forallb_forall. auto.
Qed.

(** Removing the spaces of a run of digits and spaces leaves its digits. *)
Lemma remove_spaces (ip : str) :
  forallb digit_or_space ip = true ->
  replace SP [] ip = filter isdigit ip.
Proof.
  induction ip as [|c ip IH]; simpl; auto.
  intros H. apply andb_true_iff in H. destruct H as [H1 H2].
  unfold replace in *. simpl. rewrite (IH H2).
  unfold digit_or_space in H1. apply orb_true_iff in H1.
  destruct H1 as [H1|H1].
  - rewrite (isdigit_not_SP _ H1), H1. reflexivity.
  - rewrite H1. apply N.eqb_eq in H1. subst. reflexivity.
Qed.

Lemma isdigit_not_float_space c :
  isdigit c = true -> Num.float_space c = false.
Proof. intros H. digit_cases H. Qed.

Lemma float_strip_nospace (s : str) :
  forallb (fun c => negb (Num.float_space c)) s = true ->
  Num.float_strip s = s.
Proof.
  assert (Hl : forall t,
             forallb (fun c => negb (Num.float_space c)) t = true ->
             Num.skip_spaces t = t).
  { intros [|c t]; simpl; auto. intros H.
    apply andb_true_iff in H. destruct H as [H _].
    apply negb_true_iff in H. rewrite H. reflexivity. }
  intros H. unfold Num.float_strip. rewrite (Hl s H).
  rewrite Hl, rev_involutive; auto.
  rewrite forallb_forall in *. intros x Hx. apply H, in_rev, Hx.
Qed.

Lemma split_on_cut sep (a b : str) :
  forallb (fun c => negb (c =? sep)%N) a = true ->
  split_on sep (a ++ sep :: b) = a :: split_on sep b.
Proof.
  induction a as [|c a IH]; simpl.
  - rewrite N.eqb_refl. reflexivity.
  - intros H. apply andb_true_iff in H. destruct H as [H1 H2].
    apply negb_true_iff in H1. rewrite H1, (IH H2). reflexivity.
Qed.

Lemma split_on_nosep sep (a : str) :
  forallb (fun c => negb (c =? sep)%N) a = true -> split_on sep a = [a].
Proof.
  induction a as [|c a IH]; simpl; auto.
  intros H. apply andb_true_iff in H. destruct H as [H1 H2].
  apply negb_true_iff in H1. rewrite H1, (IH H2). reflexivity.
Qed.

Lemma digits_without (P : codepoint -> bool) (s : str) :
  (forall c, isdigit c = true -> P c = false) ->
  forallb isdigit s = true ->
  forallb (fun c => negb (P c)) s = true.
Proof.
  intros HP. apply forallb_impl. intros x Hx. rewrite (HP x Hx). reflexivity.
Qed.

(** [float] on digits, a point, digits. *)
Lemma float_decimal (ds frac : str) :
  forallb isdigit ds = true -> forallb isdigit frac = true -> ds <> [] ->
  Num.float (ds ++ Num.DOT :: frac)
  = Ok (Qred (Num.Z_of_digits (ds ++ frac)
              # Z.to_pos (10 ^ Z.of_nat (List.length frac)))).
Proof.
  intros Hd Hf Hne. unfold Num.float, Num.float_value.
  rewrite float_strip_nospace.
  2:{ rewrite forallb_app. simpl.
      rewrite (digits_without Num.float_space _ isdigit_not_float_space Hd).
      rewrite (digits_without Num.float_space _ isdigit_not_float_space Hf).
      reflexivity. }
  rewrite split_on_cut
    by exact (digits_without (fun c => (c =? Num.DOT)%N) _ isdigit_not_dot Hd).
  rewrite split_on_nosep
    by exact (digits_without (fun c => (c =? Num.DOT)%N) _ isdigit_not_dot Hf).
  rewrite Hd, Hf. destruct ds; [congruence|]. reflexivity.
Qed.

Lemma filter_isdigit_nonempty (ip : str) :
  existsb isdigit ip = true -> filter isdigit ip <> [].
Proof.
  induction ip as [|c ip IH]; simpl; try discriminate.
  destruct (isdigit c); simpl; [discriminate | auto].
Qed.

Lemma forallb_filter_self {A : Type} (P : A -> bool) (l : list A) :
  forallb P (filter P l) = true.
Proof.
  apply forallb_forall. intros x Hx. apply filter_In in Hx. tauto.
Qed.

(** What a field of the totals block comes to, from the amount that its
    pattern captures. *)
Lemma amount_field_captured (r : regex) (text : str) :
  amount_field r text
  = match captured r text with
    | Some t => bind (Num.float t) (fun v => Ok (Some v))
    | None => Ok None
    end.
Proof.
  unfold amount_field, captured.
  destruct (re_search r text); reflexivity.
Qed.

Lemma amount_field_value (r : regex) (text : str) (o : option Q) :
  amount_field r text = Ok o ->
  o = match captured r text with
      | Some t => Num.float_value t
      | None => None
      end
  /\ ~ refused r text.
Proof.
  rewrite amount_field_captured. unfold refused, Num.float.
  destruct (captured r text) as [t|].
  - destruct (Num.float_value t) as [v|] eqn:E; simpl; try discriminate.
    intros H. inversion H; subst. split; auto.
    intros (t' & Ht & Hf). inversion Ht; subst. congruence.
  - intros H. inversion H; subst. split; auto.
    intros (t' & Ht & _). discriminate.
Qed.

Lemma amount_field_raise (r : regex) (text : str) (e : exn) :
  amount_field r text = Raise e ->
  exists t, captured r text = Some t /\ Num.float t = Raise e.
Proof.
  rewrite amount_field_captured.
  destruct (captured r text) as [t|]; try discriminate.
  destruct (Num.float t) as [v|e'] eqn:E; simpl; try discriminate.
  intros H. inversion H; subst. eauto.
Qed.

Lemma amount_field_accepts (r : regex) (text : str) :
  ~ refused r text -> exists o, amount_field r text = Ok o.
Proof.
  intros H. rewrite amount_field_captured. unfold refused, Num.float in *.
  destruct (captured r text) as [t|]; [|eauto].
  destruct (Num.float_value t) as [v|] eqn:E; simpl; [eauto|].
  elim H. eauto.
Qed.

(** The totals that come out are the four fields, each from its
    pattern. *)
Lemma montants_fields (self : data) (text : str) (mt : montants) :
  _extract_montants self text = Ok mt ->
  forall r get, In (r, get) total_fields -> amount_field r text = Ok (get mt).
Proof.
  intros H. unfold _extract_montants in H.
  destruct (amount_field ht_re text) as [o1|] eqn:E1;
    cbv beta iota delta [bind] in H; try discriminate.
  destruct (amount_field tva10_re text) as [o2|] eqn:E2;
    cbv beta iota delta [bind] in H; try discriminate.
  destruct (amount_field tva20_re text) as [o3|] eqn:E3;
    cbv beta iota delta [bind] in H; try discriminate.
  destruct (amount_field ttc_re text) as [o4|] eqn:E4;
    cbv beta iota delta [bind] in H; try discriminate.
  inversion H; subst; clear H.
  intros r get [Hi|[Hi|[Hi|[Hi|[]]]]]; inversion Hi; subst; assumption.
Qed.

Lemma montants_raise (self : data) (text : str) (e : exn) :
  _extract_montants self text = Raise e ->
  exists r get, In (r, get) total_fields /\ amount_field r text = Raise e.
Proof.
  intros H. unfold _extract_montants in H.
  destruct (amount_field ht_re text) as [o1|e1] eqn:E1;
    cbv beta iota delta [bind] in H.
  2:{ inversion H; subst. exists ht_re, mt_total_ht.
      split; [unfold total_fields; cbn [In]; auto 6 | assumption]. }
  destruct (amount_field tva10_re text) as [o2|e2] eqn:E2;
    cbv beta iota delta [bind] in H.
  2:{ inversion H; subst. exists tva10_re, mt_tva_10_pct.
      split; [unfold total_fields; cbn [In]; auto 6 | assumption]. }
  destruct (amount_field tva20_re text) as [o3|e3] eqn:E3;
    cbv beta iota delta [bind] in H.
  2:{ inversion H; subst. exists tva20_re, mt_tva_20_pct.
      split; [unfold total_fields; cbn [In]; auto 6 | assumption]. }
  destruct (amount_field ttc_re text) as [o4|e4] eqn:E4;
    cbv beta iota delta [bind] in H.
  2:{ inversion H; subst. exists ttc_re, mt_total_ttc.
      split; [unfold total_fields; cbn [In]; auto 6 | assumption]. }
  discriminate.
Qed.

Lemma montants_accepts (self : data) (text : str) :
  (forall r get, In (r, get) total_fields -> ~ refused r text) ->
  exists mt, _extract_montants self text = Ok mt.
Proof.
  intros H. unfold _extract_montants.
  destruct (@amount_field_accepts ht_re text) as (o1 & ->);
    [apply (H _ mt_total_ht); unfold total_fields; cbn [In]; auto 6|].
  destruct (@amount_field_accepts tva10_re text) as (o2 & ->);
    [apply (H _ mt_tva_10_pct); unfold total_fields; cbn [In]; auto 6|].
  destruct (@amount_field_accepts tva20_re text) as (o3 & ->);
    [apply (H _ mt_tva_20_pct); unfold total_fields; cbn [In]; auto 6|].
  destruct (@amount_field_accepts ttc_re text) as (o4 & ->);
    [apply (H _ mt_total_ttc); unfold total_fields; cbn [In]; auto 6|].
  cbv beta iota delta [bind]. eauto.
Qed.

(** The conversion of the totals block on digits with spaces and one
    decimal comma. *)
Lemma clean_amount_decimal (ip fp : str) :
  forallb digit_or_space ip = true ->
  forallb digit_or_space fp = true ->
  clean_amount (ip ++ Num.COMMA :: fp)
  = filter isdigit ip ++ Num.DOT :: filter isdigit fp.
Proof.
  intros Hi Hf. unfold clean_amount, comma_to_dot.
  change (ip ++ Num.COMMA :: fp) with (ip ++ [Num.COMMA] ++ fp).
  rewrite !replace_app, (remove_spaces _ Hi), (remove_spaces _ Hf).
  change (replace SP [] [Num.COMMA]) with [Num.COMMA].
  rewrite ?replace_app.
  rewrite (@replace_absent (ch ",") (py ".") (filter isdigit ip))
    by exact (digits_without (fun c => (c =? Num.COMMA)%N) _
                             isdigit_not_comma (forallb_filter_self isdigit ip)).
  rewrite (@replace_absent (ch ",") (py ".") (filter isdigit fp))
    by exact (digits_without (fun c => (c =? Num.COMMA)%N) _
                             isdigit_not_comma (forallb_filter_self isdigit fp)).
  reflexivity.
Qed.

Lemma digits_digit_or_space (s : str) :
  forallb isdigit s = true -> forallb digit_or_space s = true.
Proof.
  apply forallb_impl. intros x Hx. unfold digit_or_space.
  rewrite Hx. reflexivity.
Qed.

Lemma filter_digits (s : str) :
  forallb isdigit s = true -> filter isdigit s = s.
Proof.
  induction s as [|c s IH]; simpl; auto.
  intros H. apply andb_true_iff in H. destruct H as [H1 H2].
  rewrite H1, (IH H2). reflexivity.
Qed.

(** [float] on an amount of the totals block: digits and plain spaces,
    a comma, digits and plain spaces. *)
Lemma float_clean_amount (ip fp : str) :
  forallb digit_or_space ip = true ->
  existsb isdigit ip = true ->
  forallb digit_or_space fp = true ->
  Num.float (clean_amount (ip ++ Num.COMMA :: fp))
  = Ok (decimal (filter isdigit ip ++ filter isdigit fp)
                (List.length (filter isdigit fp))).
Proof.
  intros Hi He Hf. rewrite (clean_amount_decimal _ _ Hi Hf).
  apply float_decimal.
  - apply forallb_filter_self.
  - apply forallb_filter_self.
  - apply filter_isdigit_nonempty, He.
Qed.

(** The line items that a walk appends come from priced rows. *)
Lemma in_emitted (rows : list row) (l : ligne) :
  forall cp cat,
    In l (emitted rows cp cat) ->
    exists r fs cp' cat',
      In r rows /\ classify r = RLigne fs /\ l = mk_ligne fs cp' cat'.
Proof.
  induction rows as [|r rows IH]; intros cp cat H; simpl in H; [contradiction|].
  assert (Hrec : forall cp0 cat0,
             In l (emitted rows cp0 cat0) ->
             exists r0 fs cp' cat',
               In r0 (r :: rows) /\ classify r0 = RLigne fs
               /\ l = mk_ligne fs cp' cat').
  { intros cp0 cat0 H0. apply IH in H0.
    destruct H0 as (r0 & fs & cp' & cat' & Hin & Hc & Hl).
    exists r0, fs, cp', cat'. simpl. auto. }
  destruct (classify r) as [|p|phrase|fs| |e] eqn:E; eauto.
  destruct H as [<-|H]; eauto.
  exists r, fs, cp, cat. simpl. auto.
Qed.

Lemma in_table_lignes (t : table) (l : ligne) :
  In l (table_lignes t) ->
  exists r fs cp cat,
    In r t /\ classify r = RLigne fs /\ l = mk_ligne fs cp cat.
Proof.
  unfold table_lignes. destruct (Nat.leb 2 (List.length t)); [|contradiction].
  apply in_emitted.
Qed.

Lemma in_headers_row (rows : list row) (p : piece) :
  In p (piece_headers rows) -> exists r, In r rows /\ classify r = RPiece p.
Proof.
  unfold piece_headers. intros H. apply in_flat_map in H.
  destruct H as (r & Hin & Hp). exists r. split; auto.
  destruct (classify r); simpl in Hp; try contradiction.
  destruct Hp as [->|[]]. reflexivity.
Qed.

Lemma classify_piece (r : row) (p : piece) :
  classify r = RPiece p ->
  exists m,
    re_match piece_re (row_line r) = Some m
    /\ Num.float (group m 3) = Ok (p_surface p).
Proof.
  unfold classify. destruct (skipped_row r); try discriminate.
  destruct (re_match piece_re (row_line r)) as [m|].
  - destruct (Num.float (group m 3)) as [v|] eqn:E; try discriminate.
    intros H. inversion H; subst. exists m. auto.
  - destruct (re_match cat_re (row_line r)); try discriminate.
    destruct (re_match ligne_re (row_line r)) as [m|]; try discriminate.
    destruct (ligne_of_match m); discriminate.
Qed.

(** C8, as the code has it.  In the totals block a captured amount is
    converted after its plain spaces are removed and its commas are
    then turned into points: when the extractor returns, a field whose
    pattern captures digits and spaces, a comma, digits and spaces has
    exactly the decimal number of the digits, as 1 234,56 gives 1234.56.
    In a table, every line item that a call appends comes from a row
    that the priced-line pattern matches; its quantity, unit price and
    line total are what [float] reads in the captures after the comma
    step alone, its tax rate what [float] reads in the capture as it
    is, and those captures hold digits, points and commas and no white
    space; the area of a sub-area is what [float] reads in the capture
    of its header.  So a number with a space between the thousands is
    never read whole in a row: with such a unit price the row is no
    priced line at all, and of such a quantity the digits after the
    space are read, those before it staying in the title. *)
Theorem C8_amount_conversion :
  (forall ip frac,
      forallb digit_or_space ip = true ->
      existsb isdigit ip = true ->
      forallb isdigit frac = true ->
      Num.float (clean_amount (ip ++ Num.COMMA :: frac))
      = Ok (Qred (Num.Z_of_digits (filter isdigit ip ++ frac)
                  # Z.to_pos (10 ^ Z.of_nat (List.length frac)))))
  /\ (forall self text mt r get m ip fp,
         _extract_montants self text = Ok mt ->
         In (r, get) total_fields ->
         re_search r text = Some m ->
         group m 1 = ip ++ Num.COMMA :: fp ->
         forallb digit_or_space ip = true ->
         existsb isdigit ip = true ->
         forallb digit_or_space fp = true ->
         get mt = Some (decimal (filter isdigit ip ++ filter isdigit fp)
                                (List.length (filter isdigit fp))))
  /\ (forall self,
         exists mt,
           _extract_montants self Ex.spaced_total_text = Ok mt
           /\ mt_total_ht mt = Some (Qred 1234.56%Q))
  /\ (forall t self self' l,
         _parse_table t self = Ok self' ->
         In l (d_lignes self') ->
         In l (d_lignes self)
         \/ exists r m,
             In r t /\ re_match ligne_re (row_line r) = Some m
             /\ Num.float (comma_to_dot (group m 3)) = Ok (l_quantite l)
             /\ Num.float (comma_to_dot (group m 5))
                = Ok (l_prix_unitaire_ht l)
             /\ Num.float (group m 6) = Ok (l_taux_tva l)
             /\ Num.float (comma_to_dot (group m 7)) = Ok (l_total_ht l)
             /\ forallb num_char (group m 3) = true
             /\ forallb num_char (group m 5) = true
             /\ forallb num_char (group m 6) = true
             /\ forallb num_char (group m 7) = true)
  /\ (forall t self self' p,
         _parse_table t self = Ok self' ->
         In p (d_pieces self') ->
         In p (d_pieces self)
         \/ exists r m,
             In r t /\ re_match piece_re (row_line r) = Some m
             /\ Num.float (group m 3) = Ok (p_surface p))
  /\ (forall c, num_char c = true -> isspace c = false)
  /\ classify spaced_price_row = RNoise
  /\ classify spaced_quantity_row
     = RLigne (LigneFields (py "1.1.1") (py "Parquet massif 1") []
                           (Qred 234%Q) (py "m2") (Qred 25%Q) (Qred 10%Q)
                           (Qred 30850%Q)).
Proof.
  split; [|split; [|split; [|split; [|split; [|split; [|split]]]]]].
  - intros ip frac Hi He Hf.
    rewrite (float_clean_amount _ _ Hi He (digits_digit_or_space _ Hf)).
    unfold decimal. rewrite (filter_digits _ Hf). reflexivity.
  - intros self text mt r get m ip fp H Hi Hm Hg Hip He Hfp.
    apply (montants_fields _ _ H) in Hi.
    unfold amount_field in Hi. rewrite Hm, Hg in Hi.
    rewrite (float_clean_amount _ _ Hip He Hfp) in Hi.
    cbv beta iota delta [bind] in Hi. inversion Hi. reflexivity.
  - intros self. unfold _extract_montants.
    replace (amount_field ht_re Ex.spaced_total_text)
      with (Ok (A:=option Q) (Some (Qred 1234.56%Q)))
      by (vm_compute; reflexivity).
    replace (amount_field tva10_re Ex.spaced_total_text)
      with (Ok (A:=option Q) None) by (vm_compute; reflexivity).
    replace (amount_field tva20_re Ex.spaced_total_text)
      with (Ok (A:=option Q) None) by (vm_compute; reflexivity).
    replace (amount_field ttc_re Ex.spaced_total_text)
      with (Ok (A:=option Q) None) by (vm_compute; reflexivity).
    cbv beta iota delta [bind]. eexists. split; reflexivity.
  - intros t self self' l H Hl.
    apply parse_table_ok in H. destruct H as (H & _).
    rewrite H in Hl. apply in_app_or in Hl. destruct Hl as [Hl|Hl]; auto.
    right. apply in_table_lignes in Hl.
    destruct Hl as (r & fs & cp & cat & Hin & Hc & ->).
    apply classify_ligne in Hc. destruct Hc as (m & Hm & Hfs).
    apply ligne_of_match_ok in Hfs.
    destruct Hfs as (q & pu & tva & tot & H3 & H5 & H6 & H7 & ->).
    pose proof (ligne_match_groups _ Hm) as Hg.
    exists r, m. simpl.
    repeat split; auto;
      [apply (Hg 3) | apply (Hg 5) | apply (Hg 6) | apply (Hg 7)].
  - intros t self self' p H Hp.
    apply parse_table_ok in H. destruct H as (_ & H & _).
    rewrite H in Hp. apply in_fold_add_piece in Hp.
    destruct Hp as [Hp|Hp]; auto.
    right. apply in_headers_row in Hp. destruct Hp as (r & Hin & Hc).
    apply classify_piece in Hc. destruct Hc as (m & Hm & Hf).
    exists r, m. repeat split; auto.
    rewrite read_rows_one in Hin.
    destruct (Nat.leb 2 (List.length t)); [exact Hin | contradiction].
  - apply num_char_not_space.
  - vm_compute. reflexivity.
  - vm_compute. reflexivity.
Qed.

Lemma C8_amount_conversion_witness :
  Num.float (clean_amount (py "12 345 678,90")) = Ok (Qred 12345678.9%Q)
  /\ (exists mt,
         _extract_montants blank Ex.scenario_c_text = Ok mt
         /\ mt_total_ttc mt = Some (Qred 1100%Q))
  /\ exists r m,
      In r Ex.one_table
      /\ re_match ligne_re (row_line r) = Some m
      /\ Num.float (comma_to_dot (group m 3)) = Ok (Qred 2.5%Q).
Proof.
  destruct C8_amount_conversion as (H1 & H2 & _ & H4 & _).
  split; [|split].
  - change (py "12 345 678,90")
      with (py "12 345 678" ++ Num.COMMA :: py "90").
    rewrite (H1 (py "12 345 678") (py "90")); vm_compute; reflexivity.
  - eexists. split; [vm_compute; reflexivity|].
    match goal with
    | |- mt_total_ttc ?mt = _ =>
      let v := eval vm_compute in (re_search ttc_re Ex.scenario_c_text) in
      match v with
      | Some ?m0 =>
        rewrite (H2 blank Ex.scenario_c_text mt ttc_re mt_total_ttc m0
                    (py "1 100") (py "00 "))
      end
    end; try (vm_compute; reflexivity).
    unfold total_fields. cbn [In]. auto 6.
  - let v := eval vm_compute in (_parse_table Ex.one_table blank) in
    match v with
    | Ok ?d =>
      let ls := eval vm_compute in (d_lignes d) in
      match ls with
      | [_; ?l] =>
        destruct (H4 Ex.one_table blank d l)
          as [Hin|(r & m & Hin & Hm & H3 & _)];
          [vm_compute; reflexivity
          | right; left; reflexivity
          | destruct Hin
          | exists r, m; repeat split; [exact Hin | exact Hm | exact H3] ]
      end
    end.
Defined.

(** C8 as the spec states it fails for priced rows: the conversion used
    there does not remove spaces.  A row whose unit price is written
    1 234,56 is none of the three kinds of row, so that no line item
    comes out of it, and a row whose quantity is written 1 234 gives a
    line item with quantity 234. *)
Lemma C8_counterexample :
  classify spaced_price_row = RNoise
  /\ (exists d,
         _parse_table [Ex.designation_row; spaced_price_row] blank = Ok d
         /\ d_lignes d = [])
  /\ (exists d,
         _parse_table [Ex.designation_row; spaced_quantity_row] blank = Ok d
         /\ map l_quantite (d_lignes d) = [Qred 234%Q]
         /\ map l_designation (d_lignes d) = [py "Parquet massif 1"])
  /\ (exists e, Num.float (comma_to_dot (py "1 234,56")) = Raise e)
  /\ Num.float (clean_amount (py "1 234,56")) = Ok (Qred 1234.56%Q).
Proof.
  split; [vm_compute; reflexivity|].
  split; [eexists; split; vm_compute; reflexivity|].
  split; [eexists; split; [|split]; vm_compute; reflexivity|].
  split; [eexists; vm_compute; reflexivity|].
  vm_compute. reflexivity.
Qed.

(** ** Dates of the metadata *)

Lemma date_field_raise (r : regex) (text : str) (m : match_obj) (e : exn) :
  re_search r text = Some m ->
  Num.strptime_dmY (group m 1) = Raise e ->
  date_field r text = Raise e.
Proof.
  intros Hm He. unfold date_field. rewrite Hm, He. reflexivity.
Qed.

Lemma parse_metadata_raise (f : pdf_file) first rest (e : exn) :
  pdf_pages f = Ok (first :: rest) ->
  _extract_metadata (page_text first) = Raise e ->
  parse f = Raise e.
Proof.
  intros Hp He. unfold parse. rewrite Hp.
  cbv beta iota delta [bind]. rewrite He. reflexivity.
Qed.

(** C6, as the code has it.  When the issue-date marker is followed by
    a 2/2/4-digit group that [strptime] refuses, the extractor raises the
    [ValueError] of [strptime]: it returns no metadata, the document
    number included, and [parse] raises the same exception for every
    file whose first page has that text.  The same holds for the expiry
    date when the issue date is absent or is a date. *)
Theorem C6_malformed_date_raises (text : str) :
  (forall m e,
      re_search date_re text = Some m ->
      Num.strptime_dmY (group m 1) = Raise e ->
      _extract_metadata text = Raise e
      /\ forall f tables rest,
          pdf_pages f = Ok (Page text tables :: rest) -> parse f = Raise e)
  /\ (forall m e issue,
         date_field date_re text = Ok issue ->
         re_search valide_re text = Some m ->
         Num.strptime_dmY (group m 1) = Raise e ->
         _extract_metadata text = Raise e
         /\ forall f tables rest,
             pdf_pages f = Ok (Page text tables :: rest) ->
             parse f = Raise e).
Proof.
  split.
  - intros m e Hm He.
    assert (H : _extract_metadata text = Raise e).
    { unfold _extract_metadata. rewrite (date_field_raise _ _ Hm He).
      reflexivity. }
    split; auto. intros f tables rest Hp.
    apply (parse_metadata_raise f Hp). exact H.
  - intros m e issue Hi Hm He.
    assert (H : _extract_metadata text = Raise e).
    { unfold _extract_metadata. rewrite Hi, (date_field_raise _ _ Hm He).
      reflexivity. }
    split; auto. intros f tables rest Hp.
    apply (parse_metadata_raise f Hp). exact H.
Qed.

Lemma C6_malformed_date_raises_witness :
  exists m e,
    re_search date_re Ex.bad_date_text = Some m
    /\ Num.strptime_dmY (group m 1) = Raise e
    /\ _extract_metadata Ex.bad_date_text = Raise e.
Proof.
  eexists. eexists. split; [vm_compute; reflexivity|].
  split; [vm_compute; reflexivity|].
  destruct (C6_malformed_date_raises Ex.bad_date_text) as (H & _).
  match goal with
  | |- _ = Raise ?e => eapply (H _ e)
  end; vm_compute; reflexivity.
Defined.

(** C6 as the spec states it fails: with 31/02/2025 as issue date the
    extractor raises, where the spec has it leave the date out and
    return the document number and the expiry date; and [parse] raises
    for the file. *)
Lemma C6_counterexample :
  _extract_metadata Ex.bad_date_text
  = Raise (ValueError (py "day is out of range for month"))
  /\ parse (Ex.file_of [Page Ex.bad_date_text []])
     = Raise (ValueError (py "day is out of range for month"))
  /\ (exists m, re_search num_re Ex.bad_date_text = Some m
                /\ group m 1 = py "D202501-001").
Proof.
  split; [vm_compute; reflexivity|].
  split; [vm_compute; reflexivity|].
  eexists. split; vm_compute; reflexivity.
Qed.

(** ** The totals block *)

Lemma matches_lit (l : str) pos a b : matches (lit l) pos a b <-> a = l.
Proof.
  revert pos a. induction l as [|c l IH]; intros pos a; simpl.
  - split.
    + intros H. inversion H. reflexivity.
    + intros ->. constructor.
  - split.
    + intros H. inversion H; subst.
      match goal with
      | H1 : matches (Re.chr c) _ _ _, H2 : matches (lit l) _ _ _ |- _ =>
        inversion H1; subst; apply IH in H2; subst
      end.
      match goal with
      | H : (_ =? _)%N = true |- _ => apply N.eqb_eq in H; subst
      end.
      reflexivity.
    + intros ->. change (c :: l) with ([c] ++ l).
      constructor.
      * constructor. apply N.eqb_refl.
      * apply IH. reflexivity.
Qed.

Lemma matches_star_class (g : bool) (p : codepoint -> bool) pos a b :
  matches (Star g (Chr p)) pos a b <-> forallb p a = true.
Proof.
  split.
  - intros H. apply (matches_all_chr p H). simpl. auto.
  - revert pos. induction a as [|x a IH]; intros pos H; simpl in H.
    + constructor.
    + apply andb_true_iff in H. destruct H as [H1 H2].
      change (x :: a) with ([x] ++ a).
      apply M_StarCons; [discriminate | constructor; auto | apply IH; auto].
Qed.

Lemma matches_plus_class (p : codepoint -> bool) pos a b :
  matches (plus (Chr p)) pos a b <-> a <> [] /\ forallb p a = true.
Proof.
  unfold plus. split.
  - intros H. split.
    + inversion H; subst.
      match goal with
      | H1 : matches (Chr p) _ _ _ |- _ => inversion H1; subst
      end. discriminate.
    + apply (matches_all_chr p H). simpl. auto.
  - intros [Hne H]. destruct a as [|x a]; [congruence|].
    simpl in H. apply andb_true_iff in H. destruct H as [H1 H2].
    change (x :: a) with ([x] ++ a).
    constructor; [constructor; auto | apply matches_star_class; auto].
Qed.

Lemma isspace_amount_char c : isspace c = true -> amount_char c = true.
Proof.
  intros H. unfold amount_char. simpl. rewrite H.
  rewrite orb_true_r. reflexivity.
Qed.

Lemma matches_amount_tail pos a b :
  matches amount_tail pos a b <->
  exists num, a = num ++ [ch "€"] /\ num <> []
              /\ forallb amount_char num = true.
Proof.
  unfold amount_tail. split.
  - intros H. inversion H as [| | | | |? ? ? ws1 a1 ? Hs1 H1| | | | | ]; subst.
    inversion H1 as [| | | | |? ? ? g a2 ? Hg H2| | | | | ]; subst.
    inversion H2 as [| | | | |? ? ? ws2 a3 ? Hs2 H3| | | | | ]; subst.
    inversion H3; subst.
    inversion Hg; subst.
    match goal with
    | H : (_ =? _)%N = true |- _ => apply N.eqb_eq in H; subst
    end.
    apply matches_star_class in Hs1. apply matches_star_class in Hs2.
    match goal with
    | H : matches amount _ _ _ |- _ =>
      apply matches_plus_class in H; destruct H as [Hne Ham]
    end.
    change (forallb amount_char g = true) in Ham.
    exists (ws1 ++ g ++ ws2). repeat split.
    + rewrite <- !app_assoc. reflexivity.
    + intros E. apply app_eq_nil in E. destruct E as [_ E].
      apply app_eq_nil in E. tauto.
    + rewrite !forallb_app, Ham.
      rewrite (forallb_impl _ _ _ isspace_amount_char Hs1).
      rewrite (forallb_impl _ _ _ isspace_amount_char Hs2).
      reflexivity.
  - intros (num & -> & Hne & Ham).
    change (num ++ [ch "€"]) with ([] ++ num ++ [] ++ [ch "€"]).
    constructor; [apply matches_star_class; reflexivity|].
    constructor.
    + constructor. apply matches_plus_class. auto.
    + constructor; [apply matches_star_class; reflexivity|].
      constructor. apply N.eqb_refl.
Qed.

Lemma groups_ok_true (r : regex) : groups_ok (fun _ _ => True) r.
Proof. induction r; simpl; auto. Qed.

(** [re.search] finds a match exactly when the pattern matches
    somewhere in the text. *)
Lemma search_iff (r : regex) (text : str) :
  re_search r text <> None <->
  exists pre a b, text = pre ++ a ++ b /\ matches r (List.length pre) a b.
Proof.
  unfold re_search. split.
  - destruct (search_from r 0 text) as [m|] eqn:E; [|congruence].
    intros _.
    apply (@search_from_sound (fun _ _ => True) r text (groups_ok_true r)) in E.
    destruct E as (pre & a & He & Hm & _). exists pre, a, (m_rest m). auto.
  - intros (pre & a & b & -> & Hm). apply search_from_complete. exact Hm.
Qed.

Lemma search_amount (r : regex) (words : list str) (text : str) :
  (forall pos a b,
      matches r pos a b <->
      exists lab num,
        a = lab ++ num ++ [ch "€"] /\ label_text words lab
        /\ num <> [] /\ forallb amount_char num = true) ->
  (re_search r text <> None <-> amount_occurs words text).
Proof.
  intros Hr. rewrite search_iff. unfold amount_occurs. split.
  - intros (pre & a & b & -> & Hm). apply Hr in Hm.
    destruct Hm as (lab & num & -> & Hl & Hne & Ham).
    exists pre, lab, num, b. rewrite <- !app_assoc. auto.
  - intros (pre & lab & num & post & -> & Hl & Hne & Ham).
    exists pre, (lab ++ num ++ [ch "€"]), post. split.
    + rewrite <- !app_assoc. reflexivity.
    + apply Hr. exists lab, num. auto.
Qed.

Lemma label_text_one (w lab : str) : label_text [w] lab <-> lab = w.
Proof.
  split.
  - intros H. inversion H; subst; auto.
    match goal with H : label_text [] _ |- _ => inversion H end.
  - intros ->. constructor.
Qed.

Lemma label_text_two (w1 w2 lab : str) :
  label_text [w1; w2] lab <->
  exists sp, forallb isspace sp = true /\ lab = w1 ++ sp ++ w2.
Proof.
  split.
  - intros H. inversion H; subst.
    match goal with H : label_text [w2] _ |- _ =>
      apply label_text_one in H; subst end.
    eauto.
  - intros (sp & Hs & ->). constructor; auto. constructor.
Qed.

(** A one-word label before the amount. *)
Lemma matches_label1 (w : str) pos a b :
  matches (Seq (lit w) amount_tail) pos a b <->
  exists lab num,
    a = lab ++ num ++ [ch "€"] /\ label_text [w] lab
    /\ num <> [] /\ forallb amount_char num = true.
Proof.
  split.
  - intros H. inversion H; subst.
    match goal with
    | H1 : matches (lit w) _ _ _, H2 : matches amount_tail _ _ _ |- _ =>
      apply matches_lit in H1; subst;
        apply matches_amount_tail in H2;
        destruct H2 as (num & -> & Hne & Ham)
    end.
    exists w, num. repeat split; auto. constructor.
  - intros (lab & num & -> & Hl & Hne & Ham).
    apply label_text_one in Hl. subst.
    constructor; [apply matches_lit; reflexivity|].
    apply matches_amount_tail. eauto.
Qed.

(** A two-word label, with white space between the words. *)
Lemma matches_label2 (w1 w2 : str) pos a b :
  matches (Seq (lit w1) (Seq (star bs_s) (Seq (lit w2) amount_tail)))
          pos a b <->
  exists lab num,
    a = lab ++ num ++ [ch "€"] /\ label_text [w1; w2] lab
    /\ num <> [] /\ forallb amount_char num = true.
Proof.
  split.
  - intros H. inversion H as [| | | | |? ? ? a1 r1 ? H1 H2| | | | | ]; subst.
    inversion H2 as [| | | | |? ? ? sp r2 ? Hs H3| | | | | ]; subst.
    inversion H3 as [| | | | |? ? ? a2 r3 ? H4 H5| | | | | ]; subst.
    apply matches_lit in H1. apply matches_lit in H4. subst.
    apply matches_star_class in Hs.
    apply matches_amount_tail in H5. destruct H5 as (num & -> & Hne & Ham).
    exists (w1 ++ sp ++ w2), num. repeat split; auto.
    + rewrite <- !app_assoc. reflexivity.
    + apply label_text_two. eauto.
  - intros (lab & num & -> & Hl & Hne & Ham).
    apply label_text_two in Hl. destruct Hl as (sp & Hs & ->).
    rewrite <- !app_assoc.
    constructor; [apply matches_lit; reflexivity|].
    constructor; [apply matches_star_class; exact Hs|].
    constructor; [apply matches_lit; reflexivity|].
    apply matches_amount_tail. eauto.
Qed.

Lemma amount_field_cases (r : regex) (text : str) (o : option Q) :
  amount_field r text = Ok o ->
  (re_search r text <> None -> exists v, o = Some v)
  /\ (re_search r text = None -> o = None).
Proof.
  unfold amount_field. destruct (re_search r text) as [m|].
  - destruct (Num.float (clean_amount (group m 1))) as [v|e]; simpl;
      try discriminate.
    intros H. inversion H; subst. split; [eauto | discriminate].
  - intros H. inversion H; subst. split; [congruence | auto].
Qed.

Lemma amount_field_occurs (r : regex) (words : list str) (text : str) o :
  (re_search r text <> None <-> amount_occurs words text) ->
  amount_field r text = Ok o ->
  (amount_occurs words text -> exists v, o = Some v)
  /\ (~ amount_occurs words text -> o = None).
Proof.
  intros Hiff H. apply amount_field_cases in H. destruct H as [H1 H2].
  split.
  - intros Ho. apply H1, Hiff, Ho.
  - intros Hn. apply H2.
    destruct (re_search r text) eqn:E; auto.
    elim Hn. apply Hiff. discriminate.
Qed.

(** C7, as the code has it.  The extractor returns exactly when [float]
    accepts every amount that the four patterns capture; when it
    refuses one, the extractor raises the [ValueError] of [float] and no
    totals come out, whatever labels and amounts the text holds.  When
    the extractor returns, each of the four fields is there exactly when
    its label, followed by a run of digits, white space and commas and
    then by the Euro sign, occurs in the text, with the number that
    [float] reads in the captured amount; a field whose label does not
    occur is absent, not zero.  On the text of scenario C the net total
    is 1000, the gross total 1100, and the two VAT fields are absent. *)
Theorem C7_totals_fields (self : data) (text : str) :
  ((exists mt, _extract_montants self text = Ok mt) <->
   (forall r get, In (r, get) total_fields -> ~ refused r text))
  /\ (forall e,
         _extract_montants self text = Raise e ->
         exists r get t,
           In (r, get) total_fields /\ captured r text = Some t
           /\ Num.float t = Raise e)
  /\ (forall mt,
         _extract_montants self text = Ok mt ->
         ((amount_occurs [py "Total net HT"] text ->
           exists v, mt_total_ht mt = Some v)
          /\ (~ amount_occurs [py "Total net HT"] text ->
              mt_total_ht mt = None))
         /\ ((amount_occurs [py "TVA"; py "(10.0%)"] text ->
              exists v, mt_tva_10_pct mt = Some v)
             /\ (~ amount_occurs [py "TVA"; py "(10.0%)"] text ->
                 mt_tva_10_pct mt = None))
         /\ ((amount_occurs [py "TVA"; py "(20.0%)"] text ->
              exists v, mt_tva_20_pct mt = Some v)
             /\ (~ amount_occurs [py "TVA"; py "(20.0%)"] text ->
                 mt_tva_20_pct mt = None))
         /\ ((amount_occurs [py "Total TTC"] text ->
              exists v, mt_total_ttc mt = Some v)
             /\ (~ amount_occurs [py "Total TTC"] text ->
                 mt_total_ttc mt = None))
         /\ (forall r get,
                In (r, get) total_fields ->
                get mt = match captured r text with
                         | Some t => Num.float_value t
                         | None => None
                         end))
  /\ (forall self',
         _extract_montants self' Ex.scenario_c_text
         = Ok (Montants (Some (Qred 1000%Q)) None None (Some (Qred 1100%Q))
                        (match d_pieces self' with
                         | [] => None
                         | ps => Some (sum_surfaces ps)
                         end))).
Proof.
  split; [|split; [|split]].
  - split.
    + intros (mt & H) r get Hi.
      apply (montants_fields _ _ H) in Hi.
      apply amount_field_value in Hi. tauto.
    + apply montants_accepts.
  - intros e H. apply montants_raise in H.
    destruct H as (r & get & Hi & H).
    apply amount_field_raise in H. destruct H as (t & Ht & Hf).
    exists r, get, t. auto.
  - intros mt H.
    pose proof (montants_fields _ _ H) as Hf.
    assert (E1 : amount_field ht_re text = Ok (mt_total_ht mt))
      by (apply Hf; unfold total_fields; cbn [In]; auto 6).
    assert (E2 : amount_field tva10_re text = Ok (mt_tva_10_pct mt))
      by (apply Hf; unfold total_fields; cbn [In]; auto 6).
    assert (E3 : amount_field tva20_re text = Ok (mt_tva_20_pct mt))
      by (apply Hf; unfold total_fields; cbn [In]; auto 6).
    assert (E4 : amount_field ttc_re text = Ok (mt_total_ttc mt))
      by (apply Hf; unfold total_fields; cbn [In]; auto 6).
    split; [|split; [|split; [|split]]].
    + apply (@amount_field_occurs ht_re); auto.
      apply search_amount. intros. apply matches_label1.
    + apply (@amount_field_occurs tva10_re); auto.
      apply search_amount. intros. apply matches_label2.
    + apply (@amount_field_occurs tva20_re); auto.
      apply search_amount. intros. apply matches_label2.
    + apply (@amount_field_occurs ttc_re); auto.
      apply search_amount. intros. apply matches_label1.
    + intros r get Hi. apply Hf in Hi.
      apply amount_field_value in Hi. tauto.
  - intros self'. unfold _extract_montants.
    replace (amount_field ht_re Ex.scenario_c_text)
      with (Ok (A:=option Q) (Some (Qred 1000%Q))) by (vm_compute; reflexivity).
    replace (amount_field tva10_re Ex.scenario_c_text)
      with (Ok (A:=option Q) None) by (vm_compute; reflexivity).
    replace (amount_field tva20_re Ex.scenario_c_text)
      with (Ok (A:=option Q) None) by (vm_compute; reflexivity).
    replace (amount_field ttc_re Ex.scenario_c_text)
      with (Ok (A:=option Q) (Some (Qred 1100%Q))) by (vm_compute; reflexivity).
    reflexivity.
Qed.

Lemma C7_totals_fields_witness :
  exists mt,
    _extract_montants blank Ex.scenario_c_text = Ok mt
    /\ (amount_occurs [py "Total net HT"] Ex.scenario_c_text ->
        exists v, mt_total_ht mt = Some v)
    /\ (~ amount_occurs [py "TVA"; py "(10.0%)"] Ex.scenario_c_text ->
        mt_tva_10_pct mt = None).
Proof.
  eexists. split; [vm_compute; reflexivity|].
  destruct (C7_totals_fields blank Ex.scenario_c_text) as (_ & _ & H & _).
  match goal with
  | |- (_ -> exists v, mt_total_ht ?mt = _) /\ _ =>
    destruct (H mt) as ((H1 & _) & (_ & H2) & _)
  end; [vm_compute; reflexivity|].
  split; [exact H1 | exact H2].
Defined.

(** C7 as the spec states it fails: the label of the net total is
    followed by an amount and the Euro sign, but the thousands are
    separated by a no-break space, which the pattern captures as white
    space and which the removal of plain spaces leaves in place.
    [float] refuses what is left, the extractor raises and no field
    comes out.  The same happens when the amount is a lone comma, and
    the gross total that follows is lost with it. *)
Lemma C7_counterexample :
  amount_occurs [py "Total net HT"] Ex.nbsp_total_text
  /\ _extract_montants blank Ex.nbsp_total_text
     = Raise (ValueError
                (py "could not convert string to float: '1\xa0000.00'"))
  /\ amount_occurs [py "Total TTC"] Ex.bad_total_text
  /\ _extract_montants blank Ex.bad_total_text
     = Raise (ValueError (py "could not convert string to float: '.'")).
Proof.
  split; [|split; [|split]].
  - exists [], (py "Total net HT"),
      (SP :: py "1" ++ 160%N :: py "000,00 "), [].
    split; [vm_compute; reflexivity|].
    split; [constructor|].
    split; [discriminate | vm_compute; reflexivity].
  - vm_compute. reflexivity.
  - exists (py "Total net HT , €" ++ [NL]), (py "Total TTC"),
      (py " 1 100,00 "), [].
    split; [vm_compute; reflexivity|].
    split; [constructor|].
    split; [discriminate | vm_compute; reflexivity].
  - vm_compute. reflexivity.
Qed.

(** ** The client block *)

(** [re.match] finds a match exactly when the pattern matches a prefix
    of the text. *)
Lemma match_iff (r : regex) (s : str) :
  re_match r s <> None <-> exists a b, s = a ++ b /\ matches r 0 a b.
Proof.
  unfold re_match. split.
  - destruct (match_at r 0 s) as [m|] eqn:E; [|congruence].
    intros _.
    apply (@match_at_sound (fun _ _ => True) r 0 s m (groups_ok_true r)) in E.
    destruct E as (a & He & Hm & _). exists a, (m_rest m). auto.
  - intros (a & b & -> & Hm).
    unfold match_at. apply (@run_complete match_obj r); auto.
    intros; discriminate.
Qed.

Lemma matches_rep_class (n : nat) (p : codepoint -> bool) pos a b :
  matches (rep n (Chr p)) pos a b <->
  List.length a = n /\ forallb p a = true.
Proof.
  revert pos a. induction n as [|n IH]; intros pos a; simpl.
  - split.
    + intros H. inversion H; subst. auto.
    + intros [H _]. destruct a; [constructor | discriminate].
  - split.
    + intros H. inversion H; subst.
      match goal with
      | H1 : matches (Chr p) _ _ _, H2 : matches (rep n _) _ _ _ |- _ =>
        inversion H1; subst; apply IH in H2; destruct H2 as [H2 H3]
      end.
      match goal with H : p _ = true |- _ => rename H into Hpx end.
      split; simpl; [congruence | rewrite Hpx, H3; reflexivity].
    + intros [Hl Hf]. destruct a as [|x a]; [discriminate|].
      simpl in Hl, Hf. apply andb_true_iff in Hf. destruct Hf as [Hx Hf].
      change (x :: a) with ([x] ++ a). constructor.
      * constructor. exact Hx.
      * apply IH. split; [lia | exact Hf].
Qed.

(** A line that starts with five digits and white space starts with a
    number. *)
Lemma starts_cp_number (l : str) :
  starts_cp l = true -> starts_number l = true.
Proof.
  unfold starts_cp, starts_number. intros H.
  assert (H1 : re_match debut_cp_re l <> None).
  { destruct (re_match debut_cp_re l); [discriminate | discriminate H]. }
  assert (H2 : re_match debut_nombre_re l <> None).
  { apply match_iff in H1. destruct H1 as (a & b & -> & Hm).
    apply match_iff. exists a, b. split; auto.
    change debut_cp_re with (Seq Bol (Seq (rep 5 bs_d) (plus bs_s))) in Hm.
    change debut_nombre_re with (Seq Bol (Seq (plus bs_d) (plus bs_s))).
    inversion Hm as [| | | | |? ? ? a0 r0 ? Hb H3| | | | | ]; subst.
    inversion H3 as [| | | | |? ? ? ds sp ? Hd Hs| | | | | ]; subst.
    constructor; auto. constructor; auto.
    apply (proj1 (matches_rep_class 5 isdigit _ _ _)) in Hd.
    destruct Hd as [Hl Hd].
    apply matches_plus_class. split; auto.
    intros ->. discriminate. }
  destruct (re_match debut_nombre_re l); [reflexivity | congruence].
Qed.

Lemma find_none_after (p : str -> bool) (ls : list str) :
  find p ls = None -> after p ls = [].
Proof.
  induction ls as [|l ls IH]; simpl; auto.
  destruct (p l); [discriminate | auto].
Qed.

(** One round of the inner loop of the first strategy. *)
Lemma lookahead_cons (lines : list str) (j : nat) (js : list nat)
      (c : client) :
  lookahead lines (j :: js) c
  = let l := strip (nth j lines []) in
    if passed_line l then lookahead lines js c
    else if negb (truthy (cl_adresse c)) && starts_number l
         then lookahead lines js (set_adresse c l)
         else if starts_cp l then
                match split_ws1 l with
                | [p0] => set_code_postal c p0
                | p0 :: p1 :: _ => set_ville (set_code_postal c p0) p1
                | [] => c
                end
              else lookahead lines js c.
Proof. reflexivity. Qed.

(** The inner loop of the first strategy once an address is there: only
    a line that starts with five digits counts, and ends the loop. *)
Lemma lookahead_with_address (lines : list str) (js : list nat) (c : client) :
  truthy (cl_adresse c) = true ->
  lookahead lines js c
  = match find starts_cp
               (filter (fun l => negb (passed_line l))
                       (map (fun j => strip (nth j lines [])) js)) with
    | Some l =>
      match split_ws1 l with
      | [p0] => set_code_postal c p0
      | p0 :: p1 :: _ => set_ville (set_code_postal c p0) p1
      | [] => c
      end
    | None => c
    end.
Proof.
  intros Ha. induction js as [|j js IH]; [reflexivity|].
  rewrite lookahead_cons. cbv zeta. cbn [map filter].
  destruct (passed_line (strip (nth j lines []))); cbn [negb]; auto.
  rewrite Ha. cbn [negb andb find].
  destruct (starts_cp (strip (nth j lines []))); auto.
Qed.

(** The inner loop of the first strategy from a client without address. *)
Lemma lookahead_scan (lines : list str) (js : list nat) (c : client) :
  truthy (cl_adresse c) = false ->
  lookahead lines js c
  = let cands := filter (fun l => negb (passed_line l))
                        (map (fun j => strip (nth j lines [])) js) in
    match find starts_number cands with
    | Some a =>
      match find starts_cp (after starts_number cands) with
      | Some l =>
        match split_ws1 l with
        | [p0] => set_code_postal (set_adresse c a) p0
        | p0 :: p1 :: _ => set_ville (set_code_postal (set_adresse c a) p0) p1
        | [] => set_adresse c a
        end
      | None => set_adresse c a
      end
    | None => c
    end.
Proof.
  intros Ha. cbv zeta. induction js as [|j js IH]; [reflexivity|].
  rewrite lookahead_cons. cbv zeta. cbn [map filter].
  destruct (passed_line (strip (nth j lines []))) eqn:Ep; cbn [negb]; auto.
  rewrite Ha. cbn [negb andb find after].
  destruct (starts_number (strip (nth j lines []))) eqn:En.
  - rewrite lookahead_with_address; [reflexivity|].
    unfold passed_line in Ep.
    destruct (strip (nth j lines [])); [discriminate | reflexivity].
  - destruct (starts_cp (strip (nth j lines []))) eqn:Ec.
    + apply starts_cp_number in Ec. congruence.
    + exact IH.
Qed.

(** The lines at the indices after [pre], read off the list. *)
Lemma map_nth_seq {A : Type} (d : A) (post : list A) :
  forall (pre : list A) (k : nat),
    k <= List.length post ->
    map (fun j => nth j (pre ++ post) d) (seq (List.length pre) k)
    = firstn k post.
Proof.
  induction post as [|x post IH]; intros pre k Hk; simpl in Hk.
  - assert (k = 0) by lia. subst. reflexivity.
  - destruct k as [|k]; [reflexivity|].
    simpl. rewrite nth_middle. f_equal.
    specialize (IH (pre ++ [x]) k).
    rewrite <- app_assoc, length_app in IH. simpl in IH.
    rewrite Nat.add_1_r in IH. apply IH. lia.
Qed.

Lemma lookahead_lines (pre : list str) (line : str) (post : list str) :
  map (fun j => strip (nth j (pre ++ line :: post) []))
      (seq (List.length pre + 1)
           (Nat.min (List.length pre + 6)
                    (List.length (pre ++ line :: post))
            - (List.length pre + 1)))
  = map strip (firstn 5 post).
Proof.
  rewrite <- (map_map (fun j => nth j (pre ++ line :: post) []) strip).
  f_equal.
  replace (pre ++ line :: post) with ((pre ++ [line]) ++ post)
    by (rewrite <- app_assoc; reflexivity).
  replace (List.length pre + 1) with (List.length (pre ++ [line]))
    by (rewrite length_app; reflexivity).
  rewrite map_nth_seq.
  - rewrite !length_app. cbn [List.length].
    destruct (Nat.le_gt_cases 5 (List.length post)).
    + f_equal. lia.
    + rewrite !firstn_all2 by lia. reflexivity.
  - rewrite !length_app. cbn [List.length]. lia.
Qed.

Lemma nth_after (pre : list str) (line : str) (post : list str) (k : nat) :
  nth (List.length pre + S k) (pre ++ line :: post) [] = nth k post [].
Proof.
  rewrite app_nth2 by lia.
  replace (List.length pre + S k - List.length pre) with (S k) by lia.
  reflexivity.
Qed.

Lemma ltb_after (pre : list str) (line : str) (post : list str) (k : nat) :
  Nat.ltb (List.length pre + S k) (List.length (pre ++ line :: post))
  = Nat.ltb k (List.length post).
Proof.
  rewrite length_app. simpl.
  destruct (Nat.ltb_spec k (List.length post));
    [apply Nat.ltb_lt | apply Nat.ltb_ge]; lia.
Qed.

(** The postal-code line of the second and third strategies, from the
    lines after the anchor line. *)
Lemma cp_ville_words (pre : list str) (line : str) (post : list str)
      (c : client) :
  cp_ville (pre ++ line :: post) (List.length pre) c
  = match cp_words post with
    | Some (cp, ville) => set_ville (set_code_postal c cp) ville
    | None => c
    end.
Proof.
  unfold cp_ville, cp_words.
  replace (List.length pre + 2) with (List.length pre + S 1) by lia.
  rewrite ltb_after, nth_after.
  destruct post as [|l1 [|l2 post]]; try reflexivity.
  change (Nat.ltb 1 (List.length (l1 :: l2 :: post))) with true.
  change (nth 1 (l1 :: l2 :: post) []) with l2.
  cbn [andb].
  destruct (matched (re_search (rep 5 bs_d) l2)); [|reflexivity].
  destruct (split_ws (strip l2)) as [|p0 [|p1 ps]]; reflexivity.
Qed.

Lemma client_loop_skip (lines pre rest : list str) (c : client) :
  forall i,
    (forall l, In l pre -> is_anchor l = false) ->
    client_loop lines i (pre ++ rest) c
    = client_loop lines (i + List.length pre) rest c.
Proof.
  induction pre as [|l pre IH]; intros i Hpre; simpl.
  - rewrite Nat.add_0_r. reflexivity.
  - assert (Hl : is_anchor l = false) by (apply Hpre; left; reflexivity).
    unfold is_anchor, anchor1, anchor2, anchor3 in Hl.
    apply orb_false_iff in Hl. destruct Hl as [Hl H3].
    apply orb_false_iff in Hl. destruct Hl as [H1 H2].
    destruct (re_search avec_prefix_re (strip l)); [discriminate|].
    rewrite H2, H3.
    rewrite IH by (intros; apply Hpre; right; assumption).
    f_equal. lia.
Qed.

Lemma client_loop_no_anchor (lines rest : list str) (c : client) :
  forall i,
    (forall l, In l rest -> is_anchor l = false) ->
    client_loop lines i rest c = c.
Proof.
  intros i H. rewrite <- (app_nil_r rest), client_loop_skip; auto.
Qed.

(** C2, as the code has it.  The lines are tried in order and the first
    line that matches one of the three anchors decides the whole result,
    by the first of the three strategies whose anchor it matches: the
    client is the one that this strategy reads from that line and from
    the lines after it, name, address, postal code and city.  Lines
    after the anchor line are not tried as anchors, whatever they match;
    without any anchor line the client has its type only. *)
Theorem C2_first_anchor_line_wins (text : str) :
  (forall pre line post,
      split_on NL text = pre ++ line :: post ->
      (forall l, In l pre -> is_anchor l = false) ->
      (forall m, anchor1 line = Some m ->
                 _extract_client_info text = strategy1 m post)
      /\ (anchor1 line = None -> anchor2 line = true ->
          _extract_client_info text = strategy2 line post)
      /\ (anchor1 line = None -> anchor2 line = false ->
          anchor3 line = true ->
          _extract_client_info text = strategy3 line post))
  /\ ((forall l, In l (split_on NL text) -> is_anchor l = false) ->
      _extract_client_info text
      = Client None None None None (Some (py "PARTICULIER"))).
Proof.
  split.
  - intros pre line post Hs Hpre.
    assert (E : _extract_client_info text
                = set_type_client
                    (client_loop (pre ++ line :: post) (List.length pre)
                                 (line :: post)
                                 (Client None None None None None))
                    (py "PARTICULIER")).
    { unfold _extract_client_info. rewrite Hs.
      rewrite client_loop_skip by exact Hpre. reflexivity. }
    rewrite E. clear E.
    cbn [client_loop].
    unfold anchor1, anchor2, anchor3.
    destruct (re_search avec_prefix_re (strip line)) as [m0|].
    + split; [|split]; try discriminate.
      intros m Hm. inversion Hm; subst.
      rewrite lookahead_scan by reflexivity. cbv zeta.
      rewrite lookahead_lines. unfold strategy1, candidates.
      destruct (find starts_number _) as [a|] eqn:Ea.
      * destruct (find starts_cp _) as [l|]; [|reflexivity].
        destruct (split_ws1 l) as [|p0 [|p1 ps]]; reflexivity.
      * rewrite (find_none_after _ _ Ea). reflexivity.
    + replace (List.length pre + 1) with (List.length pre + S 0) by lia.
      rewrite ltb_after, nth_after, !cp_ville_words.
      split; [discriminate|]. split.
      * intros _ H2. rewrite H2. unfold strategy2.
        destruct (cp_words post) as [[cp ville]|];
          destruct post as [|l1 post]; try reflexivity;
            change (Nat.ltb 0 (List.length (l1 :: post))) with true;
            change (nth 0 (l1 :: post) []) with l1; cbn [andb];
              destruct (matched (re_search bs_d l1)); reflexivity.
      * intros _ H2 H3. rewrite H2, H3. unfold strategy3.
        destruct (cp_words post) as [[cp ville]|];
          destruct post as [|l1 post]; reflexivity.
  - intros H. unfold _extract_client_info.
    rewrite client_loop_no_anchor by exact H. reflexivity.
Qed.

Lemma C2_first_anchor_line_wins_witness :
  _extract_client_info Ex.scenario_a_text
  = Client (Some (py "Marie Dupont")) (Some (py "12 rue des Fleurs"))
           (Some (py "75001")) (Some (py "Paris"))
           (Some (py "PARTICULIER")).
Proof.
  destruct (C2_first_anchor_line_wins Ex.scenario_a_text) as (H & _).
  destruct (H [py "N° D202501-001"; py "En date du 15/01/2025"]
              (py "Mme Marie Dupont")
              [py "12 rue des Fleurs"; py "75001 Paris"]) as (H1 & _).
  - vm_compute. reflexivity.
  - intros l [<-|[<-|[]]]; vm_compute; reflexivity.
  - match type of H1 with
    | forall m, ?a = Some m -> _ =>
      let v := eval vm_compute in a in
      match v with
      | Some ?m0 => rewrite (H1 m0) by (vm_compute; reflexivity)
      end
    end.
    vm_compute. reflexivity.
Defined.

(** C2 as the spec states it fails: the issuer's name stands on a line
    of its own before the client's.  That line matches the third anchor
    only, the next one matches the first anchor, and the client that
    comes out is the one of the third strategy on the issuer's line: the
    issuer's name, with the client's line as address. *)
Lemma C2_counterexample :
  anchor1 (py "Rapido Devis") = None
  /\ anchor2 (py "Rapido Devis") = false
  /\ anchor3 (py "Rapido Devis") = true
  /\ (exists m, anchor1 (py "Mme Marie Dupont") = Some m
                /\ group m 2 = py "Marie Dupont"
                /\ _extract_client_info Ex.issuer_first_text
                   <> strategy1 m [py "12 rue des Fleurs"; py "75001 Paris"])
  /\ _extract_client_info Ex.issuer_first_text
     = Client (Some (py "Rapido Devis")) (Some (py "Mme Marie Dupont"))
              None None (Some (py "PARTICULIER")).
Proof.
  repeat split; try (vm_compute; reflexivity).
  eexists. split; [vm_compute; reflexivity|].
  split; [vm_compute; reflexivity|].
  vm_compute. discriminate.
Qed.

(** ** Messages of the exceptions *)

Lemma prefixed_nonempty (s : string) (t : str) :
  py s <> [] -> py s ++ t <> [].
Proof.
  intros H E. apply app_eq_nil in E. tauto.
Qed.

Ltac msg_nonempty :=
  simpl;
  first [ discriminate
        | apply prefixed_nonempty; vm_compute; discriminate
        | vm_compute; discriminate ].

Lemma float_raise_msg (t : str) (e : exn) :
  Num.float t = Raise e -> str_exn e <> [].
Proof.
  unfold Num.float. destruct (Num.float_value t); try discriminate.
  intros H. inversion H; subst. msg_nonempty.
Qed.

Lemma strptime_raise_msg (t : str) (e : exn) :
  Num.strptime_dmY t = Raise e -> str_exn e <> [].
Proof.
  unfold Num.strptime_dmY.
  destruct (re_match Num.strptime_regex t) as [m|].
  - destruct (m_rest m).
    + destruct (Z.ltb _ _).
      * intros H. inversion H; subst. msg_nonempty.
      * destruct (Z.ltb _ _); try discriminate.
        intros H. inversion H; subst. msg_nonempty.
    + intros H. inversion H; subst. msg_nonempty.
  - intros H. inversion H; subst. msg_nonempty.
Qed.

Lemma date_field_raise_msg (r : regex) (text : str) (e : exn) :
  date_field r text = Raise e -> str_exn e <> [].
Proof.
  unfold date_field. destruct (re_search r text) as [m|]; try discriminate.
  destruct (Num.strptime_dmY (group m 1)) eqn:E; simpl; try discriminate.
  intros H. inversion H; subst. eapply strptime_raise_msg; eauto.
Qed.

Lemma metadata_raise_msg (text : str) (e : exn) :
  _extract_metadata text = Raise e -> str_exn e <> [].
Proof.
  unfold _extract_metadata.
  destruct (date_field date_re text) eqn:E1; simpl.
  - destruct (date_field valide_re text) eqn:E2; simpl; try discriminate.
    intros H. inversion H; subst. eapply date_field_raise_msg; eauto.
  - intros H. inversion H; subst. eapply date_field_raise_msg; eauto.
Qed.

Lemma classify_error_msg (r : row) (e : exn) :
  classify r = RError e -> str_exn e <> [].
Proof.
  unfold classify. destruct (skipped_row r); try discriminate.
  destruct (re_match piece_re (row_line r)) as [m|].
  { destruct (Num.float (group m 3)) eqn:E; try discriminate.
    intros H. inversion H; subst. eapply float_raise_msg; eauto. }
  destruct (re_match cat_re (row_line r)); try discriminate.
  destruct (re_match ligne_re (row_line r)) as [m|]; try discriminate.
  destruct (ligne_of_match m) eqn:E; try discriminate.
  intros H. inversion H; subst. clear H.
  unfold ligne_of_match in E.
  repeat match type of E with
         | bind (Num.float ?t) _ = _ =>
           let E' := fresh "E" in
           destruct (Num.float t) eqn:E'; simpl in E;
             [| inversion E; subst; eapply float_raise_msg; eauto ]
         end.
  discriminate.
Qed.

Lemma rows_loop_raise_msg (rows : list row) :
  forall loc self e,
    rows_loop rows loc self = Raise e -> str_exn e <> [].
Proof.
  induction rows as [|r rows IH]; intros loc self e H; simpl in H.
  - discriminate.
  - rewrite row_body_classify in H.
    destruct (classify r) eqn:Ek; simpl in H; try (eapply IH; eassumption).
    inversion H; subst. eapply classify_error_msg; eauto.
Qed.

Lemma parse_tables_raise_msg (ts : list table) :
  forall self e, parse_tables ts self = Raise e -> str_exn e <> [].
Proof.
  induction ts as [|t ts IH]; intros self e H; simpl in H; try discriminate.
  destruct (_parse_table t self) as [s1|e1] eqn:E; simpl in H.
  - eapply IH; eauto.
  - inversion H; subst. unfold _parse_table in E.
    destruct (is_nil t || Nat.ltb (List.length t) 2); try discriminate.
    destruct (rows_loop t (Locals None None) self) eqn:Er; simpl in E;
      try discriminate.
    inversion E; subst. eapply rows_loop_raise_msg; eauto.
Qed.

Lemma amount_field_raise_msg (r : regex) (text : str) (e : exn) :
  amount_field r text = Raise e -> str_exn e <> [].
Proof.
  unfold amount_field. destruct (re_search r text) as [m|]; try discriminate.
  destruct (Num.float (clean_amount (group m 1))) eqn:E; simpl;
    try discriminate.
  intros H. inversion H; subst. eapply float_raise_msg; eauto.
Qed.

Lemma montants_raise_msg (self : data) (text : str) (e : exn) :
  _extract_montants self text = Raise e -> str_exn e <> [].
Proof.
  unfold _extract_montants.
  destruct (amount_field ht_re text) eqn:E1; simpl;
    [|intros H; inversion H; subst; eapply amount_field_raise_msg; eauto].
  destruct (amount_field tva10_re text) eqn:E2; simpl;
    [|intros H; inversion H; subst; eapply amount_field_raise_msg; eauto].
  destruct (amount_field tva20_re text) eqn:E3; simpl;
    [|intros H; inversion H; subst; eapply amount_field_raise_msg; eauto].
  destruct (amount_field ttc_re text) eqn:E4; simpl;
    [|intros H; inversion H; subst; eapply amount_field_raise_msg; eauto].
  discriminate.
Qed.

(** An exception out of [parse] is the one that the PDF library or the
    system raised on the file, or one of the parser's own, which all
    have a message. *)
Lemma parse_raise_msg (f : pdf_file) (e : exn) :
  parse f = Raise e ->
  pdf_pages f = Raise e \/ pdf_bytes f = Raise e \/ str_exn e <> [].
Proof.
  unfold parse. intros H.
  destruct (pdf_pages f) as [[|first rest]|e0] eqn:Ep;
    cbv beta iota delta [bind] in H.
  - inversion H; subst. right. right. msg_nonempty.
  - destruct (_extract_metadata (page_text first)) as [md|e1] eqn:Em;
      cbv beta iota delta [bind] in H.
    + unfold _calculate_pdf_hash in H.
      destruct (pdf_bytes f) as [content|e2] eqn:Eb;
        cbv beta iota delta [bind] in H.
      * rewrite parse_pages_tables in H.
        match type of H with
        | match ?x with _ => _ end = _ => destruct x as [self1|e3] eqn:Et
        end.
        -- match type of H with
           | match ?x with _ => _ end = _ => destruct x as [mt|e4] eqn:Emt
           end; try discriminate.
           inversion H; subst. right. right.
           eapply montants_raise_msg; eauto.
        -- inversion H; subst. right. right.
           eapply parse_tables_raise_msg; eauto.
      * inversion H; subst. right. left. reflexivity.
    + inversion H; subst. right. right. eapply metadata_raise_msg; eauto.
  - inversion H; subst. left. reflexivity.
Qed.

(** ** Batches *)

Import Batch.

Lemma fold_append_map {A B : Type} (f : A -> B) (l : list A) (init : list B) :
  fold_left (fun acc x => acc ++ [f x]) l init = init ++ map f l.
Proof.
  revert init. induction l as [|x l IH]; intros init; simpl.
  - rewrite app_nil_r. reflexivity.
  - rewrite IH, <- app_assoc. reflexivity.
Qed.

(** The report has the row of each file, in order. *)
Lemma test_parser_batch_map (pdf_dir : list pdf_file) (limit : nat) :
  test_parser_batch pdf_dir limit = map report_of (firstn limit pdf_dir).
Proof.
  unfold test_parser_batch.
  rewrite (fold_append_map report_of). reflexivity.
Qed.

Lemma extract_body_step (acc : extraction) (pdf : pdf_file) :
  errors (extract_body acc pdf) = errors acc ++ error_of pdf
  /\ List.length (all_devis (extract_body acc pdf))
     + List.length (errors (extract_body acc pdf))
     = S (List.length (all_devis acc) + List.length (errors acc)).
Proof.
  unfold extract_body, error_of.
  destruct (parse pdf); cbn [errors all_devis]; rewrite ?length_app;
    cbn [List.length].
  - rewrite app_nil_r. split; [reflexivity | lia].
  - split; [reflexivity | lia].
Qed.

Lemma extract_fold (pdfs : list pdf_file) :
  forall acc,
    errors (fold_left extract_body pdfs acc)
    = errors acc ++ flat_map error_of pdfs
    /\ List.length (all_devis (fold_left extract_body pdfs acc))
       + List.length (errors (fold_left extract_body pdfs acc))
       = List.length (all_devis acc) + List.length (errors acc)
         + List.length pdfs.
Proof.
  induction pdfs as [|pdf pdfs IH]; intros acc; cbn [fold_left flat_map].
  - rewrite app_nil_r. cbn [List.length]. split; [reflexivity | lia].
  - destruct (IH (extract_body acc pdf)) as [H1 H2].
    destruct (extract_body_step acc pdf) as [H3 H4].
    split.
    + rewrite H1, H3, <- app_assoc. reflexivity.
    + rewrite H2, H4. cbn [List.length]. lia.
Qed.

Lemma error_of_in (pdfs : list pdf_file) (entry : error_entry) :
  In entry (flat_map error_of pdfs) <->
  exists pdf e,
    In pdf pdfs /\ parse pdf = Raise e
    /\ entry = ErrorEntry (path_name (pdf_path pdf)) (str_exn e).
Proof.
  rewrite in_flat_map. unfold error_of. split.
  - intros (pdf & Hin & H). exists pdf.
    destruct (parse pdf) as [d|e]; [contradiction|].
    destruct H as [<-|[]]. exists e. auto.
  - intros (pdf & e & Hin & Hp & ->). exists pdf. split; auto.
    rewrite Hp. left. reflexivity.
Qed.

(** C9, as the code has it.  The report of a batch has one row per
    file, in order, and the row of a file depends on that file alone:
    the rows around a file are the same whatever that file is.  When the
    parse of a file raises, its row has the file's name, the success
    flag off, and as error text the message of the exception as it is;
    that text can only be empty when the exception is one that the PDF
    library or the system raised for the file, those of the parser
    always carrying a message.  A file that parses has the flag on and
    no error text.  In the ETL the files that raise give the error
    entries, each with the name of its file and the message of its
    exception, and every file gives a quote or an entry. *)
Theorem C9_batch_rows (pdf_dir : list pdf_file) (limit : nat) :
  List.length (test_parser_batch pdf_dir limit)
  = List.length (firstn limit pdf_dir)
  /\ (forall i pdf,
         nth_error (firstn limit pdf_dir) i = Some pdf ->
         nth_error (test_parser_batch pdf_dir limit) i
         = Some (report_of pdf))
  /\ (forall before pdf after,
         test_parser_batch (before ++ pdf :: after)
                           (List.length (before ++ pdf :: after))
         = map report_of before ++ report_of pdf :: map report_of after)
  /\ (forall pdf e,
         parse pdf = Raise e ->
         report_of pdf
         = ReportRow (path_name (pdf_path pdf)) false None None None 0 0
                     0%Q 0%Q (Some (str_exn e))
         /\ (str_exn e = [] ->
             pdf_pages pdf = Raise e \/ pdf_bytes pdf = Raise e))
  /\ (forall pdf d,
         parse pdf = Ok d ->
         succes (report_of pdf) = true /\ erreur (report_of pdf) = None)
  /\ (forall lim,
         errors (extract_pdfs pdf_dir lim)
         = flat_map error_of (limited pdf_dir lim)
         /\ List.length (all_devis (extract_pdfs pdf_dir lim))
            + List.length (errors (extract_pdfs pdf_dir lim))
            = List.length (limited pdf_dir lim)
         /\ (forall entry,
                In entry (errors (extract_pdfs pdf_dir lim)) <->
                exists pdf e,
                  In pdf (limited pdf_dir lim) /\ parse pdf = Raise e
                  /\ entry = ErrorEntry (path_name (pdf_path pdf))
                                        (str_exn e))).
Proof.
  rewrite test_parser_batch_map.
  split; [apply length_map|].
  split; [intros i pdf H; rewrite nth_error_map, H; reflexivity|].
  split.
  { intros before pdf after. rewrite test_parser_batch_map, firstn_all.
    rewrite map_app. reflexivity. }
  split.
  { intros pdf e H. split.
    - unfold report_of. rewrite H. reflexivity.
    - intros He. apply parse_raise_msg in H.
      destruct H as [H|[H|H]]; auto. contradiction. }
  split.
  { intros pdf d H. unfold report_of. rewrite H. split; reflexivity. }
  intros lim. unfold extract_pdfs. fold (limited pdf_dir lim).
  destruct (extract_fold (limited pdf_dir lim) (Extraction [] [] [] []))
    as [H1 H2].
  simpl in H1, H2. split; [exact H1|]. split; [exact H2|].
  intros entry. rewrite H1. apply error_of_in.
Qed.

Lemma C9_batch_rows_witness :
  List.length (test_parser_batch Ex.three_files 50) = 3
  /\ nth_error (test_parser_batch Ex.three_files 50) 1
     = Some (ReportRow (py "b.pdf") false None None None 0 0 0%Q 0%Q
                       (Some (py "No /Root object! - Is this really a PDF?")))
  /\ map succes (test_parser_batch Ex.three_files 50) = [true; false; true].
Proof.
  destruct (C9_batch_rows Ex.three_files 50) as (H1 & H2 & _ & H4 & _).
  split; [rewrite H1; vm_compute; reflexivity|].
  split; [|vm_compute; reflexivity].
  rewrite (H2 1 Ex.not_a_pdf) by (vm_compute; reflexivity).
  destruct (H4 Ex.not_a_pdf
               (LibraryError (py "No /Root object! - Is this really a PDF?")))
    as [H _]; [vm_compute; reflexivity|].
  rewrite H. vm_compute. reflexivity.
Defined.

(** C9 as the spec states it fails for the error text: the loops store
    the message of the exception as it is, and for a file on which the
    PDF library raises an exception without message the row of the
    report and the error entry of the ETL have an empty text. *)
Lemma C9_counterexample :
  parse Ex.silent_failure = Raise (LibraryError [])
  /\ test_parser_batch [Ex.silent_failure] 50
     = [ReportRow (py "b.pdf") false None None None 0 0 0%Q 0%Q (Some [])]
  /\ errors (extract_pdfs [Ex.silent_failure] None)
     = [ErrorEntry (py "b.pdf") []].
Proof.
  repeat split; vm_compute; reflexivity.
Qed.

(* ================================================================== *)
(** * Further properties of the code *)

(** ** The digest of a file *)
























(** ** The document number *)




(** ** Groups that a match always sets *)

Section MatcherSets.
Variable R : Type.
Variable i : nat.


End MatcherSets.










(** ** Dates of the metadata are dates *)












(** ** The job-site block *)








(** ** What one table changes *)





(** ** The whole parse *)




(** ** Counts of the report *)




(** ** What the ETL keeps of each file *)




